(** * A shallow embedding of the SWC transform plugin with its disk cache

    The plugin (one TypeScript module) keeps a process-wide [Map] of
    compiled results, restores it from a cache directory when the bundler
    resolves its configuration, and compiles files with an external
    transformer, wrapping the output with React-refresh code when the
    compiled text contains the marker [$RefreshReg$].

    JavaScript strings are represented by Rocq byte strings holding their
    UTF-8 encoding.  Equality, [includes], [endsWith], the [-1] test on
    [indexOf] and a [slice] taken at an index returned by [indexOf] agree
    between the two representations for well-formed text. *)

From Stdlib Require Import ZArith Ascii Lia.
From stdpp Require Import gmap strings list fin_maps.

Local Open Scope Z_scope.
#[local] Set Warnings "-register-all".
#[local] Set Default Proof Using "Type".
#[local] Arguments String.append !s1 s2 : simpl nomatch.

(** ** String primitives of the host language *)

Module Js.

Fixpoint startsWith (p s : string) : bool :=
  match p, s with
  | EmptyString, _ => true
  | String a p', String b s' => bool_decide (a = b) && startsWith p' s'
  | String _ _, EmptyString => false
  end.

(** [hay.indexOf(needle)], counting from [i]; [-1] when absent. *)
Fixpoint indexOf_from (needle hay : string) (i : Z) : Z :=
  if startsWith needle hay then i
  else match hay with
       | EmptyString => -1
       | String _ t => indexOf_from needle t (i + 1)
       end.

Definition indexOf (needle hay : string) : Z := indexOf_from needle hay 0.

Definition includes (needle hay : string) : bool :=
  negb (indexOf needle hay =? -1).

Fixpoint drop (n : nat) (s : string) : string :=
  match n, s with
  | O, _ => s
  | S n', String _ t => drop n' t
  | S _, EmptyString => EmptyString
  end.

(** [s.slice(start)]: a negative [start] counts from the end. *)
Definition slice (s : string) (start : Z) : string :=
  let n := Z.of_nat (String.length s) in
  let from := if start <? 0 then Z.max (n + start) 0 else Z.min start n in
  drop (Z.to_nat from) s.

Definition endsWith (suffix s : string) : bool :=
  (String.length suffix <=? String.length s)%nat
  && bool_decide (drop (String.length s - String.length suffix) s = suffix).

(** [s.replace(/\//g, "|")] *)
Fixpoint replace_slashes (s : string) : string :=
  match s with
  | EmptyString => EmptyString
  | String c t =>
      String (if bool_decide (c = "/"%char) then "|"%char else c)
             (replace_slashes t)
  end.

(** *** The pattern [/:(\d+):(\d+)]/]

    [\d+] is greedy, and the character that has to follow each digit run
    ([:] or []]) is not a digit, so giving digits back never helps: the
    longest run is the only candidate at a given start position. *)

Definition is_digit (c : ascii) : bool :=
  let n := nat_of_ascii c in ((48 <=? n) && (n <=? 57))%nat.

Fixpoint span_digits (s : string) : string * string :=
  match s with
  | String c t =>
      if is_digit c
      then let '(d, r) := span_digits t in (String c d, r)
      else (EmptyString, s)
  | EmptyString => (EmptyString, EmptyString)
  end.

Definition match_here (s : string) : option (string * string) :=
  match s with
  | String c r =>
      if bool_decide (c = ":"%char) then
        match span_digits r with
        | (EmptyString, _) => None
        | (l, String c1 r1) =>
            if bool_decide (c1 = ":"%char) then
              match span_digits r1 with
              | (EmptyString, _) => None
              | (k, String c2 _) =>
                  if bool_decide (c2 = "]"%char) then Some (l, k) else None
              | (_, EmptyString) => None
              end
            else None
        | (_, EmptyString) => None
        end
      else None
  | EmptyString => None
  end.

(** [s.match(/:(\d+):(\d+)]/)]: the two groups of the leftmost match. *)
Fixpoint match_line_col (s : string) : option (string * string) :=
  match match_here s with
  | Some r => Some r
  | None => match s with
            | EmptyString => None
            | String _ t => match_line_col t
            end
  end.

(** Splitting at a separator character: [s.split(c)]. *)
Fixpoint split_on (c : ascii) (s : string) : list string :=
  match s with
  | EmptyString => [EmptyString]
  | String a t =>
      if bool_decide (a = c) then EmptyString :: split_on c t
      else match split_on c t with
           | [] => [String a EmptyString]
           | h :: r => String a h :: r
           end
  end.

Fixpoint count_char (c : ascii) (s : string) : nat :=
  match s with
  | EmptyString => 0%nat
  | String a t => ((if bool_decide (a = c) then 1 else 0) + count_char c t)%nat
  end.

End Js.

(** ** JSON values and the texts kept in files

    A file text is represented by what [JSON.parse] makes of it: either the
    value it denotes or a syntax error.  [JSON.stringify] of a value built
    from strings, numbers and plain objects is a text that parses back to
    that value. *)

Inductive json :=
| JNull
| JBool (b : bool)
| JNum (n : Z)
| JStr (s : string)
| JArr (items : list json)
| JObj (fields : list (string * json)).

Inductive text :=
| Text_json (v : json)
| Text_malformed (raw : string).

Definition JSON_parse (t : text) : option json :=
  match t with
  | Text_json v => Some v
  | Text_malformed _ => None
  end.

Definition JSON_stringify (v : json) : text := Text_json v.

Fixpoint assoc (k : string) (fs : list (string * json)) : option json :=
  match fs with
  | [] => None
  | (k', v) :: r => if bool_decide (k' = k) then Some v else assoc k r
  end.

(** [o.k] for a non-null value [o] and a key that no prototype defines
    ([version], [input], [code], [map]); [None] is [undefined]. *)
Definition prop (k : string) (o : json) : option json :=
  match o with
  | JObj fs => assoc k fs
  | _ => None
  end.

(** [o?.k] for [o] coming out of [Map.get]. *)
Definition optional_prop (k : string) (o : option json) : option json :=
  match o with
  | None | Some JNull => None
  | Some v => prop k v
  end.

(** [v === s] for a string [s]. *)
Definition strict_eq_string (v : option json) (s : string) : bool :=
  match v with
  | Some (JStr t) => bool_decide (t = s)
  | _ => false
  end.

(** ** Data model *)

(** Node's [SourceMapPayload]: the plugin touches [mappings] only. *)
Record SourceMapPayload := {
  mappings : string;
  other_fields : list (string * json)
}.

Record CacheEntry := {
  entry_input : string;
  entry_code : string;
  entry_map : SourceMapPayload
}.

Definition payload_json (m : SourceMapPayload) : json :=
  JObj (("mappings", JStr (mappings m)) :: other_fields m).

Definition entry_json (e : CacheEntry) : json :=
  JObj [("input", JStr (entry_input e));
        ("code", JStr (entry_code e));
        ("map", payload_json (entry_map e))].

(** [type MetadataCache = { version: string }] *)
Definition metadata_json (version : string) : json :=
  JObj [("version", JStr version)].

(** The transformer's interface. *)
Inductive ParserConfig :=
| Typescript (tsx : bool)
| Ecmascript (jsx : bool).

Record ReactConfig := {
  refresh : bool;
  development : bool;
  useBuiltins : bool;
  runtime : string
}.

Record Options := {
  filename : string;
  swcrc : bool;
  configFile : bool;
  sourceMaps : bool;
  target : string;
  parser : ParserConfig;
  useDefineForClassFields : bool;
  react : ReactConfig
}.

(** [Output] of the transformer; [out_map] stands for
    [JSON.parse(result.map!)]. *)
Record Output := {
  out_code : string;
  out_map : SourceMapPayload
}.

(** What [transform] hands back to the bundler: two JavaScript values. *)
Record TransformResult := {
  res_code : option json;
  res_map : option json
}.

(** The error object of a failed compilation, with the two properties the
    plugin may add. *)
Record CompileError := {
  message : string;
  line : option string;
  column : option string
}.

Inductive thrown :=
| TypeError
| SyntaxError
| FsError (code : string)
| Compile (e : CompileError).

Inductive completion (A : Type) :=
| Return (a : A)
| Throw (e : thrown).
Arguments Return {A} a.
Arguments Throw {A} e.

(** ** The file system, as far as the plugin uses it

    Every path the plugin touches is the cache directory or a file directly
    inside it, so the disk is a map from directory paths to their files. *)

Module Fs.

Definition existsSync (d : gmap string (gmap string text))
    (dir name : string) : bool :=
  match d !! dir with
  | Some files => bool_decide (is_Some (files !! name))
  | None => false
  end.

Definition readFile (d : gmap string (gmap string text))
    (dir name : string) : option text :=
  d !! dir ≫= λ files, files !! name.

Definition readdirSync (files : gmap string text) : list string :=
  (map_to_list files).*1.

(** [rmSync(dir, { recursive: true, force: true })] *)
Definition rmSync (d : gmap string (gmap string text)) (dir : string)
    : gmap string (gmap string text) :=
  delete dir d.

(** [mkdirSync(dir)]: fails when the directory is there already. *)
Definition mkdirSync (d : gmap string (gmap string text)) (dir : string)
    : option (gmap string (gmap string text)) :=
  match d !! dir with
  | Some _ => None
  | None => Some (<[dir := ∅]> d)
  end.

(** [mkdirSync(dir, { recursive: true })] *)
Definition mkdirSync_recursive (d : gmap string (gmap string text))
    (dir : string) : gmap string (gmap string text) :=
  match d !! dir with
  | Some _ => d
  | None => <[dir := ∅]> d
  end.

(** Writing a file needs its directory. *)
Definition writeFile (d : gmap string (gmap string text))
    (dir name : string) (t : text)
    : option (gmap string (gmap string text)) :=
  match d !! dir with
  | Some files => Some (<[dir := <[name := t]> files]> d)
  | None => None
  end.

End Fs.

(** [path.join(a, b)] for a plain directory [a] and a single segment [b]. *)
Definition join (a b : string) : string := a +:+ "/" +:+ b.

(** ** Module-level state *)

Record State := {
  root : option string;
  cachePath : option string;
  cache : gmap string json;
  disk : gmap string (gmap string text);
  (** [promises.writeFile] calls that were started and never awaited *)
  writes : list (string * string * text);
  (** every invocation of the transformer, oldest first *)
  swc_calls : list (string * Options)
}.

Definition initial_state (d : gmap string (gmap string text)) : State :=
  {| root := None; cachePath := None; cache := ∅; disk := d;
     writes := []; swc_calls := [] |}.

Definition ResolvedConfig : Type := string * string.
Definition config_root (c : ResolvedConfig) : string := c.1.
Definition config_cacheDir (c : ResolvedConfig) : string := c.2.

Definition dquote : string := String (ascii_of_nat 34) EmptyString.
Definition nl : string := String (ascii_of_nat 10) EmptyString.

Definition runtimePublicPath : string := "/@react-refresh".
(** [PLUGIN_CACHE_VERSION = 1], as a template literal prints it. *)
Definition PLUGIN_CACHE_VERSION : string := "1".

(** The frame delimiter of the transformer's diagnostics: U+256D, U+2500
    and an opening bracket. *)
Definition frame_delimiter : string := "╭─[".

Definition refresh_marker : string := "$RefreshReg$".

(** The text put before the compiled code, up to and including the two
    blanks in front of [${result.code}]; the file name is spliced in as it
    is. *)
Definition header_before_id : string :=
  "import * as RefreshRuntime from " +:+ dquote +:+ runtimePublicPath
    +:+ dquote +:+ ";" +:+ nl
  +:+ "  " +:+ nl
  +:+ "  if (!window.$RefreshReg$) throw new Error(" +:+ dquote
    +:+ "React refresh preamble was not loaded. Something is wrong."
    +:+ dquote +:+ ");" +:+ nl
  +:+ "  const prevRefreshReg = window.$RefreshReg$;" +:+ nl
  +:+ "  const prevRefreshSig = window.$RefreshSig$;" +:+ nl
  +:+ "  window.$RefreshReg$ = RefreshRuntime.getRefreshReg(" +:+ dquote.

Definition header_after_id : string :=
  dquote +:+ ");" +:+ nl
  +:+ "  window.$RefreshSig$ = RefreshRuntime.createSignatureFunctionForTransform;"
    +:+ nl
  +:+ "  " +:+ nl
  +:+ "  ".

Definition refresh_header (id : string) : string :=
  header_before_id +:+ id +:+ header_after_id.

(** The text put after the compiled code. *)
Definition refresh_footer : string :=
  nl
  +:+ "  " +:+ nl
  +:+ "  window.$RefreshReg$ = prevRefreshReg;" +:+ nl
  +:+ "  window.$RefreshSig$ = prevRefreshSig;" +:+ nl
  +:+ "  import.meta.hot.accept((nextExports) => {" +:+ nl
  +:+ "  if (!nextExports) return;" +:+ nl
  +:+ "  import(/* @vite-ignore */ import.meta.url).then((current) => {" +:+ nl
  +:+ "    const invalidateMessage = RefreshRuntime.validateRefreshBoundaryAndEnqueueUpdate(current, nextExports);"
    +:+ nl
  +:+ "    if (invalidateMessage) import.meta.hot.invalidate(invalidateMessage);"
    +:+ nl
  +:+ "  });" +:+ nl
  +:+ "});" +:+ nl
  +:+ "  ".

Definition mappings_prefix : string := ";;;;;;;;".

(** The parser chosen from the file name. *)
Definition parser_of (id : string) : option ParserConfig :=
  if Js.endsWith ".tsx" id then Some (Typescript true)
  else if Js.endsWith ".ts" id then Some (Typescript false)
  else if Js.endsWith ".jsx" id then Some (Ecmascript true)
  else None.

(** The cache key of a project-relative path and a target. *)
Definition fileCachePath (rel : string) (ssr : bool) : string :=
  Js.replace_slashes rel +:+ (if ssr then "-srr" else EmptyString) +:+ ".json".

Definition swc_options (id : string) (p : ParserConfig) (ssr : bool)
    : Options :=
  {| filename := id; swcrc := false; configFile := false;
     sourceMaps := true; target := "es2020"; parser := p;
     useDefineForClassFields := true;
     react := {| refresh := negb ssr; development := true;
                 useBuiltins := true; runtime := "automatic" |} |}.

(** The [catch] block: scrape a position out of the diagnostic. *)
Definition enrich (msg : string) : CompileError :=
  let fileStartIndex := Js.indexOf frame_delimiter msg in
  if negb (fileStartIndex =? -1) then
    match Js.match_line_col (Js.slice msg fileStartIndex) with
    | Some (l, c) => {| message := msg; line := Some l; column := Some c |}
    | None => {| message := msg; line := None; column := None |}
    end
  else {| message := msg; line := None; column := None |}.

(** The injection step on a successful [Output]. *)
Definition inject (id : string) (result : Output) : Output :=
  if Js.includes refresh_marker (out_code result) then
    {| out_code := refresh_header id +:+ out_code result +:+ refresh_footer;
       out_map := {| mappings := mappings_prefix +:+ mappings (out_map result);
                     other_fields := other_fields (out_map result) |} |}
  else result.

(** [`${cachePath}`]: an unset variable prints as [undefined]. *)
Definition template_of (p : option string) : string :=
  match p with
  | Some s => s
  | None => "undefined"
  end.

Section Plugin.

(** The external collaborators: the transformer with its version string
    and Node's [path.relative]. *)
Variable swc : string -> Options -> Output + string.
Variable swcVersion : string.
Variable relative : string -> string -> string.

Definition cache_version : string :=
  PLUGIN_CACHE_VERSION +:+ "-" +:+ swcVersion.

(** One restored file: read, parse, [cache.set(f, ...)].  The flag turns
    false when a file does not parse. *)
Definition restore_file (files : gmap string text) (f : string)
    (acc : gmap string json * bool) : gmap string json * bool :=
  match files !! f ≫= JSON_parse with
  | Some v => (<[f := v]> acc.1, acc.2)
  | None => (acc.1, false)
  end.

Definition is_entry_file (f : string) : bool :=
  Js.endsWith ".json" f && negb (bool_decide (f = "_metadata.json")).

(** [Promise.all] over the entry files: every read runs to its end, the
    whole step fails when one of them does. *)
Definition restore (files : gmap string text) (c : gmap string json)
    : gmap string json * bool :=
  foldr (restore_file files) (c, true)
        (List.filter is_entry_file (Fs.readdirSync files)).

Definition set_paths (cfg : ResolvedConfig) (st : State) : State :=
  {| root := Some (config_root cfg);
     cachePath := Some (join (config_cacheDir cfg) "swc-cache");
     cache := cache st; disk := disk st; writes := writes st;
     swc_calls := swc_calls st |}.

Definition set_cache (c : gmap string json) (st : State) : State :=
  {| root := root st; cachePath := cachePath st; cache := c;
     disk := disk st; writes := writes st; swc_calls := swc_calls st |}.

Definition set_disk (d : gmap string (gmap string text)) (st : State)
    : State :=
  {| root := root st; cachePath := cachePath st; cache := cache st;
     disk := d; writes := writes st; swc_calls := swc_calls st |}.

(** The last statement: [writeFileSync(metadataPath, ...)]. *)
Definition write_metadata (dir : string) (st : State)
    : completion unit * State :=
  match Fs.writeFile (disk st) dir "_metadata.json"
          (JSON_stringify (metadata_json cache_version)) with
  | Some d => (Return tt, set_disk d st)
  | None => (Throw (FsError "ENOENT"), st)
  end.

Definition configResolved (cfg : ResolvedConfig) (st : State)
    : completion unit * State :=
  if (0 <? size (cache st))%nat then (Return tt, st)
  else
    let st := set_paths cfg st in
    let dir := join (config_cacheDir cfg) "swc-cache" in
    if Fs.existsSync (disk st) dir "_metadata.json" then
      match Fs.readFile (disk st) dir "_metadata.json" with
      | None => (Throw (FsError "ENOENT"), st)
      | Some content =>
          match JSON_parse content with
          | None => (Throw SyntaxError, st)
          | Some JNull => (Throw TypeError, st)
          | Some previousCache =>
              if strict_eq_string (prop "version" previousCache)
                   cache_version
              then
                match disk st !! dir with
                | None => (Throw (FsError "ENOENT"), st)
                | Some files =>
                    let '(c, ok) := restore files (cache st) in
                    if ok then write_metadata dir (set_cache c st)
                    else (Throw SyntaxError, set_cache c st)
                end
              else
                match Fs.mkdirSync (Fs.rmSync (disk st) dir) dir with
                | None => (Throw (FsError "EEXIST"), st)
                | Some d => write_metadata dir (set_disk d st)
                end
          end
      end
    else
      write_metadata dir
        (set_disk (Fs.mkdirSync_recursive (disk st) dir) st).

Definition log_call (code : string) (o : Options) (st : State) : State :=
  {| root := root st; cachePath := cachePath st; cache := cache st;
     disk := disk st; writes := writes st;
     swc_calls := swc_calls st ++ [(code, o)] |}.

Definition start_write (dir name : string) (t : text) (st : State)
    : State :=
  {| root := root st; cachePath := cachePath st; cache := cache st;
     disk := disk st; writes := writes st ++ [(dir, name, t)];
     swc_calls := swc_calls st |}.

Definition transform (code id : string) (ssr : bool) (st : State)
    : completion (option TransformResult) * State :=
  if Js.includes "node_modules" id then (Return None, st)
  else
    match parser_of id with
    | None => (Return None, st)
    | Some p =>
        match root st with
        | None => (Throw TypeError, st)
        | Some r =>
            let key := fileCachePath (relative r id) ssr in
            let cachedEntry := cache st !! key in
            if strict_eq_string (optional_prop "input" cachedEntry) code
            then
              (Return (Some {| res_code := optional_prop "code" cachedEntry;
                               res_map := optional_prop "map" cachedEntry |}),
               st)
            else
              let o := swc_options id p ssr in
              let st := log_call code o st in
              match swc code o with
              | inr msg => (Throw (Compile (enrich msg)), st)
              | inl result =>
                  let result := inject id result in
                  let entry :=
                    {| entry_input := code;
                       entry_code := out_code result;
                       entry_map := out_map result |} in
                  (Return (Some
                     {| res_code := Some (JStr (out_code result));
                        res_map := Some (payload_json (out_map result)) |}),
                   start_write (template_of (cachePath st)) key
                     (JSON_stringify (entry_json entry)) st)
              end
        end
    end.

(** The pending writes reach the disk; one whose directory is gone is
    lost without anyone noticing. *)
Definition settle_one (d : gmap string (gmap string text))
    (w : string * string * text) : gmap string (gmap string text) :=
  match Fs.writeFile d w.1.1 w.1.2 w.2 with
  | Some d' => d'
  | None => d
  end.

Definition settle (st : State) : State :=
  {| root := root st; cachePath := cachePath st; cache := cache st;
     disk := foldl settle_one (disk st) (writes st); writes := [];
     swc_calls := swc_calls st |}.

(** The process ends and a new one starts over the same disk.  The log of
    transformer calls is kept, to count them across sessions. *)
Definition restart (st : State) : State :=
  {| root := None; cachePath := None; cache := ∅; disk := disk st;
     writes := []; swc_calls := swc_calls st |}.

End Plugin.

(** ** The other hooks of the serve plugin *)

(** [resolveId]: the virtual module of the refresh runtime resolves to
    itself, any other id is left to the bundler. *)
Definition resolveId (id : string) : option string :=
  if bool_decide (id = runtimePublicPath) then Some id else None.

(** [load]: the virtual module is served from [refresh-runtime.js] next to
    the plugin ([_dirname]); reading a missing file throws. *)
Definition load (d : gmap string (gmap string text)) (_dirname id : string)
    : completion (option text) :=
  if bool_decide (id = runtimePublicPath) then
    match Fs.readFile d _dirname "refresh-runtime.js" with
    | Some t => Return (Some t)
    | None => Throw (FsError "ENOENT")
    end
  else Return None.

(** ** A session: the bundler calls [transform] once per request *)

Record Request := {
  req_code : string;
  req_id : string;
  req_ssr : bool
}.

Section Session.

Variable swc : string -> Options -> Output + string.
Variable relative : string -> string -> string.

Definition transform_all (reqs : list Request) (st : State) : State :=
  foldl (λ s q,
           (transform swc relative (req_code q) (req_id q) (req_ssr q) s).2)
        st reqs.

End Session.

(** ** Notions used to state the properties *)

(** [needle] occurs in [hay] right after the first [i] characters. *)
Definition occurs_at (needle hay : string) (i : nat) : Prop :=
  ∃ a b, hay = a +:+ needle +:+ b ∧ String.length a = i.

Definition first_occurrence (needle hay : string) (i : nat) : Prop :=
  occurs_at needle hay i ∧ ∀ j, (j < i)%nat → ¬ occurs_at needle hay j.

Fixpoint digits (s : string) : bool :=
  match s with
  | EmptyString => true
  | String c t => Js.is_digit c && digits t
  end.

(** [:l:c]] with two non-empty digit runs stands in [s] right after the
    first [i] characters. *)
Definition position_at (s : string) (i : nat) (l c : string) : Prop :=
  ∃ a b, s = a +:+ ":" +:+ l +:+ ":" +:+ c +:+ "]" +:+ b
         ∧ String.length a = i
         ∧ digits l = true ∧ l ≠ EmptyString
         ∧ digits c = true ∧ c ≠ EmptyString.

(** the leftmost such pattern of [s] *)
Definition first_position (s l c : string) : Prop :=
  ∃ i, position_at s i l c
       ∧ ∀ j l' c', (j < i)%nat → ¬ position_at s j l' c'.

(** A file of a vendored dependency tree. *)
Definition vendored (id : string) : Prop :=
  ∃ a b, id = a +:+ "node_modules" +:+ b.

(** A file of one of the three kinds the plugin compiles. *)
Definition eligible_kind (id : string) : Prop :=
  (∃ t, id = t +:+ ".tsx") ∨ (∃ t, id = t +:+ ".ts") ∨ (∃ t, id = t +:+ ".jsx").

(** A text that carries the injected wrapper of some file. *)
Definition instrumented (c : string) : Prop :=
  ∃ id body, c = refresh_header id +:+ body +:+ refresh_footer.

Definition line_feed : ascii := ascii_of_nat 10.

(** The lines put in front of the compiled code, and the empty segments put
    in front of its mappings. *)
Definition lines_prepended (id : string) : nat :=
  Js.count_char line_feed (refresh_header id).

Definition segments_prepended : nat := Js.count_char ";" mappings_prefix.

(** ** Stand-ins for the collaborators, to run the plugin on examples *)

Module Demo.

(** Echoes the source, registers one component when refresh is on, and
    rejects a source that holds [!!] with a framed diagnostic. *)
Definition swc (code : string) (o : Options) : Output + string :=
  if Js.includes "!!" code then
    inr ("Syntax Error" +:+ nl +:+ "   " +:+ frame_delimiter
         +:+ filename o +:+ ":12:5]")
  else
    inl {| out_code :=
             code +:+ (if refresh (react o)
                       then nl +:+ "$RefreshReg$(_c, " +:+ dquote +:+ "App"
                            +:+ dquote +:+ ");"
                       else EmptyString);
           out_map := {| mappings := "AAAA;AACA";
                         other_fields := [("version", JNum 3)] |} |}.

Definition swcVersion : string := "1.3.42".

(** [to] is taken to lie below [from]. *)
Definition relative (from to : string) : string :=
  Js.drop (S (String.length from)) to.

Definition config : ResolvedConfig := ("/p", "/p/.vite").

Definition cache_dir : string := "/p/.vite/swc-cache".

(** A session that has resolved its configuration over an empty disk. *)
Definition ready : State :=
  (configResolved swcVersion config (initial_state ∅)).2.

(** The cache directory as an earlier session left it, under the metadata
    text [meta]. *)
Definition old_files (meta : text) : gmap string text :=
  {[ "_metadata.json" := meta;
     "src|a.tsx.json" :=
       Text_json (JObj [("input", JStr "let a;");
                        ("code", JStr "let a;");
                        ("map", JObj [("mappings", JStr "AAAA")])]) ]}.

Definition old_disk (meta : text) : gmap string (gmap string text) :=
  {[ cache_dir := old_files meta ]}.

Definition over (meta : text) : State := initial_state (old_disk meta).

(** A session whose cache was restored from the disk. *)
Definition restored : State :=
  (configResolved swcVersion config
     (over (Text_json (metadata_json "1-1.3.42")))).2.

Definition a_tsx : string := "/p/src/a.tsx".

(** The session that follows one in which [a.tsx] was compiled. *)
Definition next_session : State :=
  (configResolved swcVersion config
     (restart (settle (transform swc relative "let a;" a_tsx false ready).2))).2.

(** A file whose name holds a line feed. *)
Definition broken_name : string := "/p/src/a" +:+ nl +:+ "b.tsx".

Definition registered : Output :=
  {| out_code := "let a;" +:+ nl +:+ "$RefreshReg$(_c);";
     out_map := {| mappings := "AAAA;AACA"; other_fields := [] |} |}.

End Demo.


(** * Facts about the string primitives *)

Module JsFacts.

Lemma app_assoc (a b c : string) : (a +:+ b) +:+ c = a +:+ b +:+ c.
Proof. induction a as [|x a IH]; simpl; [done | by rewrite IH]. Qed.

Lemma app_empty_r (a : string) : a +:+ EmptyString = a.
Proof. induction a as [|x a IH]; simpl; [done | by rewrite IH]. Qed.

Lemma length_app (a b : string) :
  String.length (a +:+ b) = (String.length a + String.length b)%nat.
Proof. induction a as [|x a IH]; simpl; [done | by rewrite IH]. Qed.

Lemma length_zero (a : string) : String.length a = 0%nat → a = EmptyString.
Proof. by destruct a. Qed.

Lemma app_inv_head (a b c : string) : a +:+ b = a +:+ c → b = c.
Proof. induction a as [|x a IH]; simpl; [done | intros [= H]; auto]. Qed.


Lemma drop_app (a b : string) : Js.drop (String.length a) (a +:+ b) = b.
Proof. induction a as [|x a IH]; simpl; [done | exact IH]. Qed.

Lemma drop_split (k : nat) (s : string) :
  ∃ t, s = t +:+ Js.drop k s.
Proof.
  revert s; induction k as [|k IH]; intros s.
  - by exists EmptyString.
  - destruct s as [|x s]; [by exists EmptyString |].
    destruct (IH s) as [t Ht]. exists (String x t). simpl. by rewrite <- Ht.
Qed.

Lemma startsWith_spec (p s : string) :
  Js.startsWith p s = true ↔ ∃ t, s = p +:+ t.
Proof.
  revert s; induction p as [|a p IH]; intros s; simpl.
  - split; [eauto | done].
  - destruct s as [|b s].
    + split; [done | by intros [t Ht]].
    + rewrite andb_true_iff, bool_decide_eq_true, IH. split.
      * intros [-> [t ->]]. eauto.
      * intros [t Ht]. injection Ht as -> ->. eauto.
Qed.

Lemma occurs_at_0 (n h : string) :
  occurs_at n h 0 ↔ Js.startsWith n h = true.
Proof.
  rewrite startsWith_spec. split.
  - intros (a & b & -> & Ha). apply length_zero in Ha as ->. eauto.
  - intros [t ->]. by exists EmptyString, t.
Qed.

Lemma occurs_at_S (n : string) (x : ascii) (h : string) (k : nat) :
  occurs_at n (String x h) (S k) ↔ occurs_at n h k.
Proof.
  split.
  - intros (a & b & H & Ha). destruct a as [|y a]; [done |].
    simpl in *. injection H as -> ->. exists a, b. split; [done | lia].
  - intros (a & b & -> & Ha). exists (String x a), b. simpl. by rewrite Ha.
Qed.

Lemma occurs_at_empty (n : string) (k : nat) :
  occurs_at n EmptyString k → Js.startsWith n EmptyString = true.
Proof.
  intros (a & b & H & _). destruct a; [| done]. simpl in H.
  apply startsWith_spec. eauto.
Qed.

Lemma indexOf_from_none (n h : string) (i : Z) :
  (∀ k, ¬ occurs_at n h k) → Js.indexOf_from n h i = -1.
Proof.
  revert i; induction h as [|x h IH]; intros i Hno; simpl.
  - destruct (Js.startsWith n EmptyString) eqn:E; [| done].
    exfalso. apply (Hno 0%nat). by apply occurs_at_0.
  - destruct (Js.startsWith n (String x h)) eqn:E.
    + exfalso. apply (Hno 0%nat). by apply occurs_at_0.
    + apply IH. intros k Hk. apply (Hno (S k)). by apply occurs_at_S.
Qed.

Lemma indexOf_from_first (n h : string) (i : Z) (k : nat) :
  first_occurrence n h k → Js.indexOf_from n h i = i + Z.of_nat k.
Proof.
  revert i k; induction h as [|x h IH]; intros i k [Hk Hmin].
  - apply occurs_at_empty in Hk as E. simpl. rewrite E.
    destruct Hk as (a & b & H & Ha). destruct a; [| done].
    simpl in Ha. subst k. lia.
  - simpl. destruct (Js.startsWith n (String x h)) eqn:E.
    + destruct k as [|k]; [lia |].
      exfalso. apply (Hmin 0%nat); [lia |]. by apply occurs_at_0.
    + destruct k as [|k].
      { apply occurs_at_0 in Hk. congruence. }
      rewrite (IH (i + 1) k); [lia |]. split.
      * by apply occurs_at_S in Hk.
      * intros j Hj Hocc. apply (Hmin (S j)); [lia |].
        by apply occurs_at_S.
Qed.

Lemma indexOf_from_found (n h : string) (i : Z) :
  Js.indexOf_from n h i ≠ -1 → ∃ k, occurs_at n h k.
Proof.
  revert i; induction h as [|x h IH]; intros i; simpl.
  - destruct (Js.startsWith n EmptyString) eqn:E; [| done].
    intros _. exists 0%nat. by apply occurs_at_0.
  - destruct (Js.startsWith n (String x h)) eqn:E.
    + intros _. exists 0%nat. by apply occurs_at_0.
    + intros H. destruct (IH _ H) as [k Hk]. exists (S k).
      by apply occurs_at_S.
Qed.

Lemma indexOf_from_ge (n h : string) (i : Z) :
  0 ≤ i → Js.indexOf_from n h i = -1 ∨ i ≤ Js.indexOf_from n h i.
Proof.
  revert i; induction h as [|x h IH]; intros i Hi; simpl.
  - destruct (Js.startsWith n EmptyString); lia.
  - destruct (Js.startsWith n (String x h)); [lia |].
    destruct (IH (i + 1)) as [H | H]; lia.
Qed.

Lemma indexOf_from_occurs (n h : string) (i : Z) (k : nat) :
  0 ≤ i → occurs_at n h k → Js.indexOf_from n h i ≠ -1.
Proof.
  revert i k; induction h as [|x h IH]; intros i k Hi Hk; simpl.
  - apply occurs_at_empty in Hk. rewrite Hk. lia.
  - destruct (Js.startsWith n (String x h)) eqn:E; [lia |].
    destruct k as [|k].
    + apply occurs_at_0 in Hk. congruence.
    + apply occurs_at_S in Hk. apply (IH (i + 1) k); [lia | done].
Qed.

Lemma includes_spec (n h : string) :
  Js.includes n h = true ↔ ∃ a b, h = a +:+ n +:+ b.
Proof.
  unfold Js.includes, Js.indexOf.
  rewrite negb_true_iff, Z.eqb_neq. split.
  - intros H. apply indexOf_from_found in H as (k & a & b & -> & _). eauto.
  - intros (a & b & ->).
    apply (indexOf_from_occurs _ _ _ (String.length a)); [lia |].
    by exists a, b.
Qed.

Lemma includes_false (n h : string) :
  Js.includes n h = false ↔ ∀ a b, h ≠ a +:+ n +:+ b.
Proof.
  rewrite <- not_true_iff_false, includes_spec. split.
  - intros H a b ->. apply H. eauto.
  - intros H (a & b & ->). by apply (H a b).
Qed.

Lemma endsWith_spec (suffix s : string) :
  Js.endsWith suffix s = true ↔ ∃ t, s = t +:+ suffix.
Proof.
  unfold Js.endsWith. rewrite andb_true_iff, bool_decide_eq_true. split.
  - intros [_ H].
    destruct (drop_split (String.length s - String.length suffix) s)
      as [t Ht].
    exists t. etrans; [exact Ht |]. by rewrite H.
  - intros [t ->]. rewrite length_app. split.
    + apply Nat.leb_le. lia.
    + replace (String.length t + String.length suffix
               - String.length suffix)%nat
        with (String.length t) by lia.
      apply drop_app.
Qed.

Lemma slice_at (a b : string) :
  Js.slice (a +:+ b) (Z.of_nat (String.length a)) = b.
Proof.
  unfold Js.slice. rewrite length_app.
  destruct (Z.ltb_spec (Z.of_nat (String.length a)) 0) as [H | H]; [lia |].
  rewrite Z.min_l by lia. rewrite Nat2Z.id. apply drop_app.
Qed.

End JsFacts.

(** * Facts about the position pattern *)

Module PatternFacts.
Import JsFacts.

Lemma span_digits_spec (s d r : string) :
  Js.span_digits s = (d, r) → s = d +:+ r ∧ digits d = true.
Proof.
  revert d r; induction s as [|x s IH]; intros d r; simpl.
  - by intros [= <- <-].
  - destruct (Js.is_digit x) eqn:E.
    + destruct (Js.span_digits s) as [d' r'] eqn:Es.
      intros [= <- <-]. destruct (IH d' r' eq_refl) as [-> Hd].
      simpl. by rewrite E.
    + by intros [= <- <-].
Qed.

Lemma span_digits_app (l r : string) :
  digits l = true →
  (∀ x r', r = String x r' → Js.is_digit x = false) →
  Js.span_digits (l +:+ r) = (l, r).
Proof.
  intros Hl Hr. induction l as [|x l IH]; simpl in *.
  - destruct r as [|y r']; simpl; [done |]. by rewrite (Hr y r' eq_refl).
  - apply andb_true_iff in Hl as [Hx Hl]. by rewrite Hx, (IH Hl).
Qed.

Lemma match_here_complete (s l c : string) :
  position_at s 0 l c → Js.match_here s = Some (l, c).
Proof.
  intros (a & b & -> & Ha & Hl & Hl0 & Hc & Hc0).
  apply length_zero in Ha as ->. simpl.
  rewrite (span_digits_app l (String ":" (c +:+ String "]" b)) Hl).
  2: { by intros x r' [= <- _]. }
  destruct l as [|l0 l]; [done |]. simpl.
  rewrite (span_digits_app c (String "]" b) Hc).
  2: { by intros x r' [= <- _]. }
  by destruct c.
Qed.

Lemma match_here_sound (s l c : string) :
  Js.match_here s = Some (l, c) → position_at s 0 l c.
Proof.
  destruct s as [|x r]; simpl; [done |].
  case_bool_decide as Hx; [subst x | done].
  destruct (Js.span_digits r) as [d r1] eqn:E1.
  apply span_digits_spec in E1 as [-> Hd].
  destruct d as [|d0 d]; [done |].
  destruct r1 as [|c1 r1]; [done |].
  case_bool_decide as Hc1; [subst c1 | done].
  destruct (Js.span_digits r1) as [k r2] eqn:E2.
  apply span_digits_spec in E2 as [-> Hk].
  destruct k as [|k0 k]; [done |].
  destruct r2 as [|c2 r2]; [done |].
  case_bool_decide as Hc2; [subst c2 | done].
  intros [= <- <-]. exists EmptyString, r2. repeat split; try done.
Qed.

Lemma position_at_S (x : ascii) (s : string) (i : nat) (l c : string) :
  position_at (String x s) (S i) l c ↔ position_at s i l c.
Proof.
  split.
  - intros (a & b & H & Ha & Hrest). destruct a as [|y a]; [done |].
    simpl in *. injection H as -> ->. exists a, b.
    split; [done |]. split; [lia | done].
  - intros (a & b & -> & Ha & Hrest). exists (String x a), b.
    simpl. rewrite Ha. done.
Qed.

(** The matcher returns the groups of the leftmost pattern. *)
Lemma match_line_col_first (s l c : string) :
  first_position s l c → Js.match_line_col s = Some (l, c).
Proof.
  intros (i & Hi & Hmin). revert s Hi Hmin.
  induction i as [|i IH]; intros s Hi Hmin.
  - apply match_here_complete in Hi.
    destruct s; simpl in *; by rewrite Hi.
  - destruct s as [|x s].
    { destruct Hi as (a & b & H & _). by destruct a. }
    cbn [Js.match_line_col].
    destruct (Js.match_here (String x s)) as [[l' c']|] eqn:E.
    + apply match_here_sound in E. exfalso. apply (Hmin 0%nat l' c'); [lia | done].
    + apply IH.
      * by apply position_at_S in Hi.
      * intros j l' c' Hj Hp. apply (Hmin (S j) l' c'); [lia |].
        by apply position_at_S.
Qed.

Lemma match_line_col_sound (s l c : string) :
  Js.match_line_col s = Some (l, c) → first_position s l c.
Proof.
  induction s as [|x s IH].
  - done.
  - cbn [Js.match_line_col].
    destruct (Js.match_here (String x s)) as [[l' c']|] eqn:E.
    + intros ?; simplify_eq. exists 0%nat. split.
      * by apply match_here_sound.
      * intros j ? ? Hj. lia.
    + intros H. destruct (IH H) as (i & Hi & Hmin). exists (S i). split.
      * by apply position_at_S.
      * intros [|j] l' c' Hj Hp.
        -- apply match_here_complete in Hp. congruence.
        -- apply position_at_S in Hp. apply (Hmin j l' c'); [lia | done].
Qed.

(** The delimiter itself holds no colon, so the search may start behind
    it. *)
Lemma match_line_col_delimiter (rest : string) :
  Js.match_line_col (frame_delimiter +:+ rest) = Js.match_line_col rest.
Proof. reflexivity. Qed.

End PatternFacts.

(** * Facts about lines, separators and keys *)

Module TextFacts.
Import JsFacts.

Lemma count_char_app (c : ascii) (a b : string) :
  Js.count_char c (a +:+ b) = (Js.count_char c a + Js.count_char c b)%nat.
Proof. induction a as [|x a IH]; simpl; [done | rewrite IH; lia]. Qed.

Lemma split_on_cons (c : ascii) (s : string) :
  ∃ h r, Js.split_on c s = h :: r.
Proof.
  induction s as [|x s (h & r & IH)]; simpl; [eauto |].
  case_bool_decide; [eauto |]. rewrite IH. eauto.
Qed.

Lemma length_split_on (c : ascii) (s : string) :
  length (Js.split_on c s) = S (Js.count_char c s).
Proof.
  induction s as [|x s IH]; simpl; [done |].
  case_bool_decide; simpl; [by rewrite IH |].
  destruct (split_on_cons c s) as (h & r & E). rewrite E in *. done.
Qed.

(** Cutting at a separator cuts the list of segments. *)
Lemma split_on_sep (c : ascii) (a b : string) :
  Js.split_on c (a +:+ String c b) = Js.split_on c a ++ Js.split_on c b.
Proof.
  induction a as [|x a IH]; simpl.
  - by rewrite bool_decide_eq_true_2.
  - case_bool_decide; [by rewrite IH |]. rewrite IH.
    by destruct (split_on_cons c a) as (h & r & ->).
Qed.

(** A separator-free text in front only lengthens the first segment. *)
Lemma split_on_prefix (c : ascii) (a b : string) :
  Js.count_char c a = 0%nat →
  Js.split_on c (a +:+ b) =
    match Js.split_on c b with
    | h :: r => (a +:+ h) :: r
    | [] => [a]
    end.
Proof.
  induction a as [|x a IH]; simpl.
  - intros _. by destruct (split_on_cons c b) as (h & r & ->).
  - case_bool_decide; [done |]. intros Hc. rewrite (IH Hc).
    by destruct (split_on_cons c b) as (h & r & ->).
Qed.

Lemma replace_slashes_app (a b : string) :
  Js.replace_slashes (a +:+ b)
  = Js.replace_slashes a +:+ Js.replace_slashes b.
Proof. induction a as [|x a IH]; simpl; [done | by rewrite IH]. Qed.


Lemma app_last_inj (a b : string) (x y : ascii) :
  a +:+ String x EmptyString = b +:+ String y EmptyString → a = b ∧ x = y.
Proof.
  revert b; induction a as [|u a IH]; intros [|v b] H; simpl in *.
  - by injection H as ->.
  - injection H as -> H. by destruct b.
  - injection H as -> H. by destruct a.
  - injection H as -> H. destruct (IH _ H) as [-> ->]. done.
Qed.

End TextFacts.

(** * Facts about the plugin *)

Lemma optional_prop_Some (k : string) (v : json) :
  optional_prop k (Some v) = prop k v.
Proof. by destruct v. Qed.

Lemma strict_eq_string_true (v : option json) (s : string) :
  strict_eq_string v s = true ↔ v = Some (JStr s).
Proof.
  destruct v as [[]|]; simpl; try by split.
  rewrite bool_decide_eq_true. split; congruence.
Qed.

Lemma parser_of_None (id : string) :
  parser_of id = None ↔ ¬ eligible_kind id.
Proof.
  unfold parser_of, eligible_kind.
  destruct (Js.endsWith ".tsx" id) eqn:E1;
    [apply JsFacts.endsWith_spec in E1; split; [done | tauto] |].
  destruct (Js.endsWith ".ts" id) eqn:E2;
    [apply JsFacts.endsWith_spec in E2; split; [done | tauto] |].
  destruct (Js.endsWith ".jsx" id) eqn:E3;
    [apply JsFacts.endsWith_spec in E3; split; [done | tauto] |].
  split; [| done]. intros _ [H | [H | H]].
  - apply JsFacts.endsWith_spec in H. congruence.
  - apply JsFacts.endsWith_spec in H. congruence.
  - apply JsFacts.endsWith_spec in H. congruence.
Qed.

Lemma not_vendored (id : string) :
  ¬ vendored id → Js.includes "node_modules" id = false.
Proof.
  intros H. apply not_true_iff_false. intros E.
  by apply JsFacts.includes_spec in E.
Qed.

(** The diagnostics scraper. *)

Lemma enrich_message (msg : string) : message (enrich msg) = msg.
Proof.
  unfold enrich. destruct (negb _); [| done].
  by destruct (Js.match_line_col _) as [[]|].
Qed.

Lemma enrich_no_delimiter (msg : string) :
  (∀ a b, msg ≠ a +:+ frame_delimiter +:+ b) →
  line (enrich msg) = None ∧ column (enrich msg) = None.
Proof.
  intros H. apply JsFacts.includes_false in H.
  unfold Js.includes in H. unfold enrich. by rewrite H.
Qed.

Lemma enrich_position (pre rest l c : string) :
  first_occurrence frame_delimiter (pre +:+ frame_delimiter +:+ rest)
    (String.length pre) →
  first_position rest l c →
  line (enrich (pre +:+ frame_delimiter +:+ rest)) = Some l
  ∧ column (enrich (pre +:+ frame_delimiter +:+ rest)) = Some c.
Proof.
  intros Hd Hp. unfold enrich, Js.indexOf.
  rewrite (JsFacts.indexOf_from_first _ _ 0 _ Hd), Z.add_0_l.
  destruct (Z.eqb_spec (Z.of_nat (String.length pre)) (-1)) as [E | _];
    [lia |].
  cbn [negb]. rewrite JsFacts.slice_at.
  rewrite PatternFacts.match_line_col_delimiter.
  by rewrite (PatternFacts.match_line_col_first _ _ _ Hp).
Qed.

Lemma instrumented_has_marker (c : string) :
  instrumented c → Js.includes refresh_marker c = true.
Proof.
  intros (id & body & ->). apply JsFacts.includes_spec.
  exists ("import * as RefreshRuntime from " +:+ dquote +:+ runtimePublicPath
          +:+ dquote +:+ ";" +:+ nl +:+ "  " +:+ nl +:+ "  if (!window.").
  eexists. reflexivity.
Qed.

Section PluginFacts.

Variable swc : string -> Options -> Output + string.
Variable relative : string -> string -> string.

(** The three ways through [transform] for a file that is compiled. *)

Lemma transform_hit (code id : string) (ssr : bool) (st : State)
    (p : ParserConfig) (r : string) (v : json) :
  ¬ vendored id → parser_of id = Some p → root st = Some r →
  cache st !! fileCachePath (relative r id) ssr = Some v →
  prop "input" v = Some (JStr code) →
  transform swc relative code id ssr st
  = (Return (Some {| res_code := prop "code" v; res_map := prop "map" v |}),
     st).
Proof.
  intros Hv Hp Hr Hc Hi. unfold transform.
  rewrite (not_vendored _ Hv), Hp, Hr, Hc, !optional_prop_Some, Hi.
  simpl. by rewrite bool_decide_eq_true_2.
Qed.

Lemma transform_compiled (code id : string) (ssr : bool) (st : State)
    (p : ParserConfig) (r : string) (result : Output) :
  ¬ vendored id → parser_of id = Some p → root st = Some r →
  optional_prop "input" (cache st !! fileCachePath (relative r id) ssr)
    ≠ Some (JStr code) →
  swc code (swc_options id p ssr) = inl result →
  transform swc relative code id ssr st
  = (Return (Some
       {| res_code := Some (JStr (out_code (inject id result)));
          res_map := Some (payload_json (out_map (inject id result))) |}),
     start_write (template_of (cachePath st))
       (fileCachePath (relative r id) ssr)
       (JSON_stringify (entry_json
          {| entry_input := code;
             entry_code := out_code (inject id result);
             entry_map := out_map (inject id result) |}))
       (log_call code (swc_options id p ssr) st)).
Proof.
  intros Hv Hp Hr Hc Hs. unfold transform.
  rewrite (not_vendored _ Hv), Hp, Hr.
  destruct (strict_eq_string _ code) eqn:E.
  { by apply strict_eq_string_true in E. }
  by rewrite Hs.
Qed.

Lemma transform_failed (code id : string) (ssr : bool) (st : State)
    (p : ParserConfig) (r msg : string) :
  ¬ vendored id → parser_of id = Some p → root st = Some r →
  optional_prop "input" (cache st !! fileCachePath (relative r id) ssr)
    ≠ Some (JStr code) →
  swc code (swc_options id p ssr) = inr msg →
  transform swc relative code id ssr st
  = (Throw (Compile (enrich msg)),
     log_call code (swc_options id p ssr) st).
Proof.
  intros Hv Hp Hr Hc Hs. unfold transform.
  rewrite (not_vendored _ Hv), Hp, Hr.
  destruct (strict_eq_string _ code) eqn:E.
  { by apply strict_eq_string_true in E. }
  by rewrite Hs.
Qed.

(** [transform] never writes the in-memory mapping, nor the paths. *)
Lemma transform_keeps_cache (code id : string) (ssr : bool) (st : State) :
  cache (transform swc relative code id ssr st).2 = cache st
  ∧ root (transform swc relative code id ssr st).2 = root st
  ∧ cachePath (transform swc relative code id ssr st).2 = cachePath st
  ∧ disk (transform swc relative code id ssr st).2 = disk st.
Proof.
  unfold transform.
  destruct (Js.includes "node_modules" id); [by repeat split |].
  destruct (parser_of id); [| by repeat split].
  destruct (root st) eqn:Hr; [| by repeat split].
  destruct (strict_eq_string _ code); [by repeat split |].
  by destruct (swc code _); repeat split.
Qed.

(** C7: a file of a vendored dependency tree, or of a kind other than
    the three compiled ones, gets no output from [transform]: the call
    returns [undefined], the transformer is not invoked, and the state
    (in-memory mapping, disk, pending writes) is the one before. *)
Theorem transform_skips (code id : string) (ssr : bool) (st : State) :
  vendored id ∨ ¬ eligible_kind id →
  transform swc relative code id ssr st = (Return None, st).
Proof.
  intros [Hv | He]; unfold transform.
  - apply JsFacts.includes_spec in Hv. by rewrite Hv.
  - apply parser_of_None in He. rewrite He.
    by destruct (Js.includes "node_modules" id).
Qed.


(** C6: when the transformer fails, [transform] throws the transformer's
    error with its message and does not recover.  A message without the
    frame delimiter leaves the error without line and column; a message in
    which the first frame delimiter is followed by a pattern [:l:c]], the
    leftmost after it, gives the error line [l] and column [c]. *)
Theorem transform_error_position (code id : string) (ssr : bool)
    (st : State) (p : ParserConfig) (r msg : string) :
  ¬ vendored id → parser_of id = Some p → root st = Some r →
  optional_prop "input" (cache st !! fileCachePath (relative r id) ssr)
    ≠ Some (JStr code) →
  swc code (swc_options id p ssr) = inr msg →
  ∃ e, (transform swc relative code id ssr st).1 = Throw (Compile e)
       ∧ message e = msg
       ∧ ((∀ a b, msg ≠ a +:+ frame_delimiter +:+ b) →
          line e = None ∧ column e = None)
       ∧ (∀ pre rest l c,
            msg = pre +:+ frame_delimiter +:+ rest →
            first_occurrence frame_delimiter msg (String.length pre) →
            first_position rest l c →
            line e = Some l ∧ column e = Some c).
Proof.
  intros Hv Hp Hr Hmiss Hs. exists (enrich msg).
  rewrite (transform_failed _ _ _ _ _ _ _ Hv Hp Hr Hmiss Hs).
  split; [done |]. split; [apply enrich_message |]. split.
  - apply enrich_no_delimiter.
  - intros pre rest l c -> Hd Hpos. by apply enrich_position.
Qed.

(** Compiling for the server target asks the transformer for no refresh
    instrumentation, and when the compiled text does not contain the
    registration marker the value returned is the transformer's code and
    map as they are, free of the injected wrapper. *)
Theorem transform_ssr_plain (code id : string) (st : State)
    (p : ParserConfig) (r : string) (result : Output) :
  ¬ vendored id → parser_of id = Some p → root st = Some r →
  optional_prop "input" (cache st !! fileCachePath (relative r id) true)
    ≠ Some (JStr code) →
  swc code (swc_options id p true) = inl result →
  Js.includes refresh_marker (out_code result) = false →
  refresh (react (swc_options id p true)) = false
  ∧ (transform swc relative code id true st).1
    = Return (Some {| res_code := Some (JStr (out_code result));
                      res_map := Some (payload_json (out_map result)) |})
  ∧ ¬ instrumented (out_code result).
Proof.
  intros Hv Hp Hr Hmiss Hs Hm. split; [done |]. split.
  - rewrite (transform_compiled _ _ _ _ _ _ _ Hv Hp Hr Hmiss Hs).
    unfold inject. by rewrite Hm.
  - intros Hi. apply instrumented_has_marker in Hi. congruence.
Qed.

End PluginFacts.

(** C9: when the in-memory mapping holds at least one entry, the
    configuration-resolved hook returns at once and leaves the whole
    state as it was: mapping, project root, cache path, disk and pending
    writes. *)
Theorem configResolved_populated (swcVersion : string) (cfg : ResolvedConfig)
    (st : State) (k : string) (v : json) :
  cache st !! k = Some v →
  configResolved swcVersion cfg st = (Return tt, st).
Proof.
  intros Hk. unfold configResolved.
  assert (size (cache st) ≠ 0%nat) as Hs.
  { apply map_size_non_empty_iff. intros E. by rewrite E in Hk. }
  destruct (Nat.ltb_spec 0 (size (cache st))); [done | lia].
Qed.

(** * The injected wrapper and the position map *)

Lemma segments_prepended_eq : segments_prepended = 8%nat.
Proof. reflexivity. Qed.

(** The header has eight line feeds of its own; the spliced file name adds
    the ones it contains. *)
Lemma lines_prepended_eq (id : string) :
  lines_prepended id = (8 + Js.count_char line_feed id)%nat.
Proof.
  unfold lines_prepended, refresh_header.
  rewrite !TextFacts.count_char_app.
  change (Js.count_char line_feed header_before_id) with 5%nat.
  change (Js.count_char line_feed header_after_id) with 3%nat.
  lia.
Qed.

Lemma lookup_split_shift (c : ascii) (a b : string) (k : nat) :
  Js.split_on c (a +:+ String c b) !! (S (Js.count_char c a) + k)%nat
  = Js.split_on c b !! k.
Proof.
  rewrite TextFacts.split_on_sep, lookup_app_r;
    rewrite TextFacts.length_split_on; [| lia].
  f_equal. lia.
Qed.

Lemma lookup_split_indent (c : ascii) (a s : string) (k : nat) (l : string) :
  Js.count_char c a = 0%nat →
  Js.split_on c s !! k = Some l →
  Js.split_on c (a +:+ s) !! k
  = Some (match k with O => a +:+ l | S _ => l end).
Proof.
  intros Ha Hl. rewrite (TextFacts.split_on_prefix c a s Ha).
  destruct (TextFacts.split_on_cons c s) as (h & r & E). rewrite E in *.
  destruct k as [|k]; simpl in *; [congruence | done].
Qed.

(** Where a line of the compiled code ends up in the wrapped code. *)
Lemma wrapped_line (id code : string) (k : nat) (l : string) :
  Js.count_char line_feed id = 0%nat →
  Js.split_on line_feed code !! k = Some l →
  Js.split_on line_feed (refresh_header id +:+ code +:+ refresh_footer)
    !! (8 + k)%nat
  = Some (match k with O => "  " +:+ l | S _ => l end).
Proof.
  intros Hid Hl.
  pose (front := header_before_id +:+ id +:+ dquote +:+ ");" +:+ nl
    +:+ "  window.$RefreshSig$ = RefreshRuntime.createSignatureFunctionForTransform;"
    +:+ nl +:+ "  ").
  pose (back := "  " +:+ nl
    +:+ "  window.$RefreshReg$ = prevRefreshReg;" +:+ nl
    +:+ "  window.$RefreshSig$ = prevRefreshSig;" +:+ nl
    +:+ "  import.meta.hot.accept((nextExports) => {" +:+ nl
    +:+ "  if (!nextExports) return;" +:+ nl
    +:+ "  import(/* @vite-ignore */ import.meta.url).then((current) => {" +:+ nl
    +:+ "    const invalidateMessage = RefreshRuntime.validateRefreshBoundaryAndEnqueueUpdate(current, nextExports);"
    +:+ nl
    +:+ "    if (invalidateMessage) import.meta.hot.invalidate(invalidateMessage);"
    +:+ nl +:+ "  });" +:+ nl +:+ "});" +:+ nl +:+ "  ").
  assert (refresh_header id +:+ code +:+ refresh_footer
          = front +:+ String line_feed
              (("  " +:+ code) +:+ String line_feed back)) as ->.
  { unfold refresh_header, front.
    rewrite !JsFacts.app_assoc. reflexivity. }
  assert (Js.count_char line_feed front = 7%nat) as Hfront.
  { unfold front. rewrite !TextFacts.count_char_app, Hid.
    change (Js.count_char line_feed header_before_id) with 5%nat.
    reflexivity. }
  change (8 + k)%nat with (S 7 + k)%nat. rewrite <- Hfront.
  rewrite lookup_split_shift, TextFacts.split_on_sep.
  pose proof (lookup_split_indent line_feed "  " code k l eq_refl Hl) as Hk.
  rewrite lookup_app_l; [done |].
  by apply lookup_lt_Some in Hk.
Qed.

Lemma shifted_segment (m : string) (k : nat) :
  Js.split_on ";" (mappings_prefix +:+ m) !! (8 + k)%nat
  = Js.split_on ";" m !! k.
Proof. reflexivity. Qed.

(** C3: when injection is triggered for a file whose name holds no line
    feed, the code is wrapped between header and footer, the mappings get
    the fixed prefix, the number of empty segments in that prefix equals
    the number of lines put before the compiled code, and so line [k] of
    the compiled code (indented by two blanks when it is the first) and
    segment [k] of its mappings are both found eight places further. *)
Theorem inject_keeps_lines (id : string) (result : Output) :
  Js.count_char line_feed id = 0%nat →
  Js.includes refresh_marker (out_code result) = true →
  out_code (inject id result)
  = refresh_header id +:+ out_code result +:+ refresh_footer
  ∧ mappings (out_map (inject id result))
    = mappings_prefix +:+ mappings (out_map result)
  ∧ segments_prepended = lines_prepended id
  ∧ ∀ k l,
      Js.split_on line_feed (out_code result) !! k = Some l →
      Js.split_on line_feed (out_code (inject id result))
        !! (lines_prepended id + k)%nat
      = Some (match k with O => "  " +:+ l | S _ => l end)
      ∧ Js.split_on ";" (mappings (out_map (inject id result)))
          !! (segments_prepended + k)%nat
        = Js.split_on ";" (mappings (out_map result)) !! k.
Proof.
  intros Hid Hm. unfold inject. rewrite Hm. cbn [out_code out_map mappings].
  rewrite lines_prepended_eq, segments_prepended_eq, Hid.
  split; [done |]. split; [done |]. split; [done |].
  intros k l Hl. split; [by apply wrapped_line | apply shifted_segment].
Qed.

(** * The cache key *)

Lemma fileCachePath_target (rel : string) :
  fileCachePath rel true ≠ fileCachePath rel false.
Proof.
  unfold fileCachePath. intros H. by apply JsFacts.app_inv_head in H.
Qed.

Lemma replace_slashes_suffix (ext q : string) :
  Js.count_char "/" ext = 0%nat →
  (∃ t, q = t +:+ ext) →
  ∃ u, Js.replace_slashes q = u +:+ ext.
Proof.
  intros Hext [t ->]. exists (Js.replace_slashes t).
  rewrite TextFacts.replace_slashes_app. f_equal.
  clear t. induction ext as [|x ext IH]; simpl in *; [done |].
  case_bool_decide; [done |]. by rewrite IH.
Qed.



(** * Initialisation and the cache across sessions *)

Lemma restore_fold_lookup (files : gmap string text) (c : gmap string json)
    (names : list string) (k : string) :
  (foldr (restore_file files) (c, true) names).1 !! k
  = match (if decide (k ∈ names) then files !! k ≫= JSON_parse else None)
    with
    | Some v => Some v
    | None => c !! k
    end.
Proof.
  induction names as [|f names IH]; cbn [foldr].
  - by rewrite decide_False by apply not_elem_of_nil.
  - unfold restore_file at 1.
    destruct (decide (f = k)) as [-> | Hne].
    + rewrite decide_True by apply list_elem_of_here.
      destruct (files !! k ≫= JSON_parse) as [v|] eqn:E; simpl.
      * by rewrite lookup_insert_eq.
      * rewrite IH. by destruct (decide (k ∈ names)); rewrite ?E.
    + destruct (files !! f ≫= JSON_parse) as [v|] eqn:E; simpl.
      * rewrite lookup_insert_ne by done. rewrite IH.
        destruct (decide (k ∈ names)) as [Hin | Hin].
        -- by rewrite decide_True by (by apply list_elem_of_further).
        -- rewrite decide_False; [done |].
           intros [? | ?]%elem_of_cons; congruence.
      * rewrite IH.
        destruct (decide (k ∈ names)) as [Hin | Hin].
        -- by rewrite decide_True by (by apply list_elem_of_further).
        -- rewrite decide_False; [done |].
           intros [? | ?]%elem_of_cons; congruence.
Qed.

(** A parsable entry file is in the mapping after the restore. *)
Lemma restore_lookup_entry (files : gmap string text) (c : gmap string json)
    (k : string) (v : json) :
  is_entry_file k = true → files !! k = Some (Text_json v) →
  (restore files c).1 !! k = Some v.
Proof.
  intros Hk Hf. unfold restore. rewrite restore_fold_lookup.
  rewrite decide_True; [by rewrite Hf |].
  apply list_elem_of_In, filter_In. split; [| done].
  apply list_elem_of_In. unfold Fs.readdirSync.
  apply (list_elem_of_fmap_2' fst _ (k, Text_json v)); [| done].
  by apply elem_of_map_to_list.
Qed.

Lemma fileCachePath_entry_file (rel : string) (ssr : bool) :
  fileCachePath rel ssr ≠ "_metadata.json" →
  is_entry_file (fileCachePath rel ssr) = true.
Proof.
  intros Hne. unfold is_entry_file. apply andb_true_iff. split.
  - apply JsFacts.endsWith_spec. unfold fileCachePath.
    exists (Js.replace_slashes rel +:+ (if ssr then "-srr" else EmptyString)).
    by rewrite JsFacts.app_assoc.
  - by rewrite bool_decide_eq_false_2.
Qed.

Lemma existsSync_true (d : gmap string (gmap string text))
    (dir name : string) (files : gmap string text) (t : text) :
  d !! dir = Some files → files !! name = Some t →
  Fs.existsSync d dir name = true ∧ Fs.readFile d dir name = Some t.
Proof.
  intros Hd Hf. unfold Fs.existsSync, Fs.readFile. rewrite Hd. simpl.
  rewrite Hf. split; [| done]. by apply bool_decide_eq_true_2.
Qed.

Lemma empty_cache_goes_on (st : State) :
  cache st = ∅ → (0 <? size (cache st))%nat = false.
Proof. intros ->. by rewrite map_size_empty. Qed.

Section CacheFacts.

Variable swcVersion : string.

(** What a successful [write_metadata] leaves. *)
Lemma write_metadata_ok (dir : string) (st : State) :
  (write_metadata swcVersion dir st).1 = Return tt →
  ∃ files, disk st !! dir = Some files
    ∧ (write_metadata swcVersion dir st).2
      = set_disk (<[dir := <["_metadata.json" :=
                     JSON_stringify (metadata_json (cache_version swcVersion))]>
                   files]> (disk st)) st.
Proof.
  unfold write_metadata, Fs.writeFile.
  destruct (disk st !! dir) as [files|]; [| done]. eauto.
Qed.

(** A session that has resolved its configuration knows its paths and has
    a metadata record of the current version on disk. *)
Lemma configResolved_ok (cfg : ResolvedConfig) (st : State) :
  cache st = ∅ →
  (configResolved swcVersion cfg st).1 = Return tt →
  let s := (configResolved swcVersion cfg st).2 in
  let dir := join (config_cacheDir cfg) "swc-cache" in
  root s = Some (config_root cfg)
  ∧ cachePath s = Some dir
  ∧ writes s = writes st
  ∧ swc_calls s = swc_calls st
  ∧ ∃ files, disk s !! dir = Some files
      ∧ files !! "_metadata.json"
        = Some (JSON_stringify (metadata_json (cache_version swcVersion))).
Proof.
  intros Hc. unfold configResolved.
  rewrite (empty_cache_goes_on _ Hc).
  set (dir := join (config_cacheDir cfg) "swc-cache").
  assert (∀ s', root s' = Some (config_root cfg) → cachePath s' = Some dir →
            writes s' = writes st → swc_calls s' = swc_calls st →
            (write_metadata swcVersion dir s').1 = Return tt →
            let s := (write_metadata swcVersion dir s').2 in
            root s = Some (config_root cfg) ∧ cachePath s = Some dir
            ∧ writes s = writes st ∧ swc_calls s = swc_calls st
            ∧ ∃ files, disk s !! dir = Some files
                ∧ files !! "_metadata.json"
                  = Some (JSON_stringify
                            (metadata_json (cache_version swcVersion))))
    as Hfin.
  { intros s' H1 H2 H3 H4 Hok.
    destruct (write_metadata_ok dir s' Hok) as (files & Hd & ->). simpl.
    repeat split; try done.
    eexists. rewrite lookup_insert_eq. split; [done |].
    by rewrite lookup_insert_eq. }
  destruct (Fs.existsSync _ dir "_metadata.json").
  - destruct (Fs.readFile _ dir "_metadata.json") as [content|]; [| done].
    destruct (JSON_parse content) as [prev|]; [| done].
    destruct prev; try done;
      (destruct (strict_eq_string _ _);
       [ simpl; destruct (disk st !! dir) as [files|]; [| done];
         destruct (restore files (cache st)) as [c ok];
         destruct ok; [| done]; by apply Hfin
       | simpl; destruct (Fs.mkdirSync _ dir); [| done]; by apply Hfin ]).
  - by apply Hfin.
Qed.

(** With a metadata record of the current version on disk, the hook
    restores the entry files into the empty mapping. *)
Lemma configResolved_restores (cfg : ResolvedConfig) (st : State)
    (files : gmap string text) :
  let dir := join (config_cacheDir cfg) "swc-cache" in
  cache st = ∅ →
  disk st !! dir = Some files →
  files !! "_metadata.json"
  = Some (JSON_stringify (metadata_json (cache_version swcVersion))) →
  let s := (configResolved swcVersion cfg st).2 in
  cache s = (restore files ∅).1
  ∧ root s = Some (config_root cfg)
  ∧ swc_calls s = swc_calls st.
Proof.
  intros dir Hc Hd Hm. unfold configResolved.
  rewrite (empty_cache_goes_on _ Hc).
  destruct (existsSync_true _ _ _ _ _ Hd Hm) as [He Hread].
  fold dir. cbn [disk set_paths]. rewrite He, Hread.
  cbn [JSON_parse JSON_stringify metadata_json prop assoc].
  rewrite bool_decide_eq_true_2 by done.
  cbn [strict_eq_string]. rewrite bool_decide_eq_true_2 by done.
  rewrite Hd. cbn [cache set_paths]. rewrite Hc.
  destruct (restore files ∅) as [c ok]. destruct ok; [| by repeat split].
  unfold write_metadata, Fs.writeFile. cbn [disk set_cache set_paths].
  by rewrite Hd.
Qed.

(** C8: over a disk whose metadata record carries a version other than the
    current composite version, a starting session (empty mapping) ends the
    hook normally, with the mapping still empty, so that every lookup is
    absent, and with the cache directory holding nothing but a fresh
    metadata record of the current version. *)
Theorem configResolved_version_mismatch (cfg : ResolvedConfig) (st : State)
    (files : gmap string text) (meta : text) (fs : list (string * json))
    (V1 : string) :
  let dir := join (config_cacheDir cfg) "swc-cache" in
  cache st = ∅ →
  disk st !! dir = Some files →
  files !! "_metadata.json" = Some meta →
  JSON_parse meta = Some (JObj fs) →
  assoc "version" fs = Some (JStr V1) →
  V1 ≠ cache_version swcVersion →
  ∃ st', configResolved swcVersion cfg st = (Return tt, st')
    ∧ (∀ key, cache st' !! key = None)
    ∧ disk st'
      = <[dir := {[ "_metadata.json" :=
                     JSON_stringify (metadata_json (cache_version swcVersion)) ]}]>
          (disk st)
    ∧ root st' = Some (config_root cfg)
    ∧ cachePath st' = Some dir.
Proof.
  intros dir Hc Hd Hm Hp Hv Hne. unfold configResolved.
  rewrite (empty_cache_goes_on _ Hc).
  destruct (existsSync_true _ _ _ _ _ Hd Hm) as [He Hread].
  fold dir. cbn [disk set_paths]. rewrite He, Hread, Hp.
  cbn [prop]. rewrite Hv. cbn [strict_eq_string].
  rewrite bool_decide_eq_false_2 by done.
  unfold Fs.mkdirSync, Fs.rmSync. rewrite lookup_delete_eq.
  unfold write_metadata, Fs.writeFile. cbn [disk set_disk].
  rewrite lookup_insert_eq. eexists. split; [done |].
  cbn [cache disk root cachePath set_disk set_paths]. rewrite Hc.
  split; [intros key; apply lookup_empty |]. split; [| done].
  by rewrite insert_insert_eq, insert_delete_eq, insert_empty.
Qed.

(** C10: when the metadata file is there and its text is not valid JSON,
    or is the JSON value [null], the hook of a starting session throws; the
    disk, the mapping and the pending writes are the ones before. *)
Theorem configResolved_unreadable_metadata (cfg : ResolvedConfig)
    (st : State) (files : gmap string text) (meta : text) :
  let dir := join (config_cacheDir cfg) "swc-cache" in
  cache st = ∅ →
  disk st !! dir = Some files →
  files !! "_metadata.json" = Some meta →
  JSON_parse meta = None ∨ JSON_parse meta = Some JNull →
  ∃ e st', configResolved swcVersion cfg st = (Throw e, st')
    ∧ disk st' = disk st
    ∧ cache st' = cache st
    ∧ writes st' = writes st.
Proof.
  intros dir Hc Hd Hm Hp. unfold configResolved.
  rewrite (empty_cache_goes_on _ Hc).
  destruct (existsSync_true _ _ _ _ _ Hd Hm) as [He Hread].
  fold dir. cbn [disk set_paths]. rewrite He, Hread.
  destruct Hp as [-> | ->]; eexists; eexists; (split; [done |]); done.
Qed.

Variable swc : string -> Options -> Output + string.
Variable relative : string -> string -> string.

(** C1: a successful compilation does not touch the in-memory mapping; it
    starts one write of [{input, code, map}] to the file named by the key
    in the cache directory.  Once that write has reached the disk, a later
    session that resolves the same configuration under the same composite
    version has the entry in its mapping, and [transform] on the same file,
    target and text returns the same [{code, map}] from it and leaves the
    state, and so the transformer, alone. *)
Theorem transform_cached_next_session (d : gmap string (gmap string text))
    (cfg : ResolvedConfig) (code id : string) (ssr : bool)
    (p : ParserConfig) (result : Output) :
  let key := fileCachePath (relative (config_root cfg) id) ssr in
  let dir := join (config_cacheDir cfg) "swc-cache" in
  let s1 := (configResolved swcVersion cfg (initial_state d)).2 in
  let t1 := transform swc relative code id ssr s1 in
  let s2 := restart (settle t1.2) in
  let s3 := (configResolved swcVersion cfg s2).2 in
  let entry := {| entry_input := code;
                  entry_code := out_code (inject id result);
                  entry_map := out_map (inject id result) |} in
  (configResolved swcVersion cfg (initial_state d)).1 = Return tt →
  ¬ vendored id → parser_of id = Some p →
  key ≠ "_metadata.json" →
  optional_prop "input" (cache s1 !! key) ≠ Some (JStr code) →
  swc code (swc_options id p ssr) = inl result →
  (configResolved swcVersion cfg s2).1 = Return tt →
  cache t1.2 = cache s1
  ∧ writes t1.2 = [(dir, key, JSON_stringify (entry_json entry))]
  ∧ cache s3 !! key = Some (entry_json entry)
  ∧ transform swc relative code id ssr s3 = (t1.1, s3)
  ∧ t1.1 = Return (Some {| res_code := Some (JStr (entry_code entry));
                           res_map := Some (payload_json (entry_map entry)) |}).
Proof.
  intros key dir s1 t1 s2 s3 entry Hinit Hv Hp Hkey Hmiss Hs Hinit2.
  destruct (configResolved_ok cfg (initial_state d) eq_refl Hinit)
    as (Hr1 & Hcp1 & Hw1 & _ & files1 & Hd1 & Hm1).
  fold s1 dir in Hr1, Hcp1, Hw1, Hd1.
  assert (t1 = (Return (Some {| res_code := Some (JStr (entry_code entry));
                               res_map := Some (payload_json (entry_map entry)) |}),
                start_write dir key (JSON_stringify (entry_json entry))
                  (log_call code (swc_options id p ssr) s1))) as Ht1.
  { unfold t1.
    rewrite (transform_compiled swc relative _ _ _ _ _ _ _ Hv Hp Hr1 Hmiss Hs).
    by rewrite Hcp1. }
  assert (disk s2 = <[dir := <[key := JSON_stringify (entry_json entry)]> files1]>
                      (disk s1)) as Hd2.
  { unfold s2. rewrite Ht1. cbn [snd restart settle disk writes start_write
                                 log_call].
    rewrite Hw1. cbn [initial_state writes app foldl].
    unfold settle_one, Fs.writeFile. cbn [fst snd]. by rewrite Hd1. }
  assert (disk s2 !! dir
          = Some (<[key := JSON_stringify (entry_json entry)]> files1)) as Hl2.
  { rewrite Hd2. apply lookup_insert_eq. }
  assert (<[key := JSON_stringify (entry_json entry)]> files1
            !! "_metadata.json"
          = Some (JSON_stringify (metadata_json (cache_version swcVersion))))
    as Hm2.
  { by rewrite lookup_insert_ne. }
  destruct (configResolved_restores cfg s2 _ eq_refl Hl2 Hm2) as (Hc3 & Hr3 & _).
  fold s3 in Hc3, Hr3.
  assert (cache s3 !! key = Some (entry_json entry)) as Hk3.
  { rewrite Hc3. apply restore_lookup_entry.
    - by apply fileCachePath_entry_file.
    - apply lookup_insert_eq. }
  rewrite Ht1. cbn [fst snd cache writes start_write log_call].
  rewrite Hw1. repeat split; try done.
  by rewrite (transform_hit swc relative code id ssr s3 p _ _ Hv Hp Hr3 Hk3 eq_refl).
Qed.

End CacheFacts.

(** * The plugin on examples *)

Example parser_of_tsx : parser_of "/p/src/App.tsx" = Some (Typescript true).
Proof. reflexivity. Qed.

Example parser_of_declaration :
  parser_of "/p/src/env.d.ts" = Some (Typescript false).
Proof. reflexivity. Qed.

Example parser_of_jsx : parser_of "/p/src/App.jsx" = Some (Ecmascript true).
Proof. reflexivity. Qed.

Example parser_of_js : parser_of "/p/src/main.js" = None.
Proof. reflexivity. Qed.

Example fileCachePath_nested :
  fileCachePath "src/components/App.tsx" true
  = "src|components|App.tsx-srr.json".
Proof. reflexivity. Qed.

Example match_line_col_leftmost :
  Js.match_line_col "at x:3:12:5] and y:1:2]" = Some ("12", "5").
Proof. reflexivity. Qed.

Example match_line_col_open : Js.match_line_col "at x:12:5" = None.
Proof. reflexivity. Qed.

Example enrich_framed :
  enrich ("x Expected ';'" +:+ nl +:+ "   " +:+ frame_delimiter
          +:+ "/p/src/App.tsx:12:5]")
  = {| message := "x Expected ';'" +:+ nl +:+ "   " +:+ frame_delimiter
                  +:+ "/p/src/App.tsx:12:5]";
       line := Some "12"; column := Some "5" |}.
Proof. reflexivity. Qed.

Example enrich_plain :
  enrich "failed to read swc config :1:2]"
  = {| message := "failed to read swc config :1:2]";
       line := None; column := None |}.
Proof. reflexivity. Qed.

Example ready_state :
  root Demo.ready = Some "/p"
  ∧ cachePath Demo.ready = Some Demo.cache_dir
  ∧ cache Demo.ready = ∅
  ∧ disk Demo.ready !! Demo.cache_dir
    = Some {[ "_metadata.json" := Text_json (metadata_json "1-1.3.42") ]}.
Proof. repeat split; vm_compute; reflexivity. Qed.

Example restored_state :
  cache Demo.restored !! "src|a.tsx.json"
  = Some (JObj [("input", JStr "let a;"); ("code", JStr "let a;");
                ("map", JObj [("mappings", JStr "AAAA")])])
  ∧ cache Demo.restored !! "_metadata.json" = None.
Proof. split; vm_compute; reflexivity. Qed.

Lemma first_occurrence_of_indexOf_from (n h : string) (i : Z) (k : nat) :
  0 ≤ i → Js.indexOf_from n h i = i + Z.of_nat k → first_occurrence n h k.
Proof.
  revert i k; induction h as [|x h IH]; intros i k Hi; simpl.
  - destruct (Js.startsWith n EmptyString) eqn:E; [| lia].
    intros Hk. assert (k = 0%nat) as -> by lia.
    split; [by apply JsFacts.occurs_at_0 | intros j Hj; lia].
  - destruct (Js.startsWith n (String x h)) eqn:E.
    + intros Hk. assert (k = 0%nat) as -> by lia.
      split; [by apply JsFacts.occurs_at_0 | intros j Hj; lia].
    + intros Hk.
      destruct (JsFacts.indexOf_from_ge n h (i + 1)) as [H | H]; [lia | lia |].
      destruct k as [|k]; [lia |].
      destruct (IH (i + 1) k) as [Hocc Hmin]; [lia | lia |].
      split; [by apply JsFacts.occurs_at_S |].
      intros [|j] Hj Hoj.
      * apply JsFacts.occurs_at_0 in Hoj. congruence.
      * apply JsFacts.occurs_at_S in Hoj. apply (Hmin j); [lia | done].
Qed.

Lemma first_occurrence_of_indexOf (n h : string) (k : nat) :
  Js.indexOf n h = Z.of_nat k → first_occurrence n h k.
Proof. intros H. by apply (first_occurrence_of_indexOf_from n h 0 k). Qed.

Lemma not_vendored_by_test (id : string) :
  Js.includes "node_modules" id = false → ¬ vendored id.
Proof. intros H Hv. apply JsFacts.includes_spec in Hv. congruence. Qed.

Lemma ineligible_by_test (id : string) :
  parser_of id = None → ¬ eligible_kind id.
Proof. intros H. by apply (proj1 (parser_of_None id)). Qed.

Lemma transform_skips_witness :
  transform Demo.swc Demo.relative "export {}" "/p/node_modules/react/index.jsx"
    false Demo.restored
  = (Return None, Demo.restored)
  ∧ transform Demo.swc Demo.relative "a { color: red }" "/p/src/a.css"
      false Demo.restored
    = (Return None, Demo.restored).
Proof.
  split.
  - apply transform_skips. left.
    exists "/p/", "/react/index.jsx". reflexivity.
  - apply transform_skips. right. apply ineligible_by_test. reflexivity.
Defined.

Lemma configResolved_populated_witness :
  configResolved Demo.swcVersion Demo.config Demo.restored
  = (Return tt, Demo.restored).
Proof.
  apply (configResolved_populated Demo.swcVersion Demo.config Demo.restored
           "src|a.tsx.json"
           (JObj [("input", JStr "let a;"); ("code", JStr "let a;");
                  ("map", JObj [("mappings", JStr "AAAA")])])).
  vm_compute. reflexivity.
Defined.


Lemma transform_error_position_witness :
  ∃ e, (transform Demo.swc Demo.relative "let !! a;" Demo.a_tsx false
          Demo.ready).1 = Throw (Compile e)
       ∧ line e = Some "12" ∧ column e = Some "5".
Proof.
  destruct (transform_error_position Demo.swc Demo.relative
              "let !! a;" Demo.a_tsx false Demo.ready (Typescript true) "/p"
              ("Syntax Error" +:+ nl +:+ "   " +:+ frame_delimiter
               +:+ Demo.a_tsx +:+ ":12:5]"))
    as (e & He & _ & _ & Hpos).
  - apply not_vendored_by_test. reflexivity.
  - reflexivity.
  - vm_compute. reflexivity.
  - vm_compute. discriminate.
  - reflexivity.
  - exists e. split; [exact He |].
    apply (Hpos ("Syntax Error" +:+ nl +:+ "   ") (Demo.a_tsx +:+ ":12:5]")).
    + reflexivity.
    + apply first_occurrence_of_indexOf. reflexivity.
    + apply PatternFacts.match_line_col_sound. reflexivity.
Defined.

Lemma transform_ssr_plain_witness :
  (transform Demo.swc Demo.relative "let a;" Demo.a_tsx true Demo.ready).1
  = Return (Some {| res_code := Some (JStr "let a;");
                    res_map := Some (JObj [("mappings", JStr "AAAA;AACA");
                                           ("version", JNum 3)]) |})
  ∧ ¬ instrumented "let a;".
Proof.
  destruct (transform_ssr_plain Demo.swc Demo.relative "let a;" Demo.a_tsx
              Demo.ready (Typescript true) "/p"
              {| out_code := "let a;";
                 out_map := {| mappings := "AAAA;AACA";
                               other_fields := [("version", JNum 3)] |} |})
    as (_ & Hres & Hplain).
  - apply not_vendored_by_test. reflexivity.
  - reflexivity.
  - vm_compute. reflexivity.
  - vm_compute. discriminate.
  - reflexivity.
  - reflexivity.
  - split; [exact Hres | exact Hplain].
Defined.

Lemma inject_keeps_lines_witness :
  segments_prepended = lines_prepended Demo.a_tsx
  ∧ Js.split_on line_feed (out_code (inject Demo.a_tsx Demo.registered))
      !! 9%nat = Some "$RefreshReg$(_c);"
  ∧ Js.split_on ";" (mappings (out_map (inject Demo.a_tsx Demo.registered)))
      !! 9%nat = Some "AACA".
Proof.
  destruct (inject_keeps_lines Demo.a_tsx Demo.registered)
    as (_ & _ & Hcount & Hline).
  - reflexivity.
  - reflexivity.
  - split; [exact Hcount |].
    destruct (Hline 1%nat "$RefreshReg$(_c);") as [H1 H2]; [reflexivity |].
    split; [exact H1 | exact H2].
Defined.


Lemma configResolved_version_mismatch_witness :
  ∃ st', configResolved Demo.swcVersion Demo.config
           (Demo.over (Text_json (metadata_json "1-1.3.41")))
         = (Return tt, st')
    ∧ cache st' !! "src|a.tsx.json" = None
    ∧ disk st'
      = {[ Demo.cache_dir :=
             {[ "_metadata.json" := Text_json (metadata_json "1-1.3.42") ]} ]}.
Proof.
  destruct (configResolved_version_mismatch Demo.swcVersion Demo.config
              (Demo.over (Text_json (metadata_json "1-1.3.41")))
              (Demo.old_files (Text_json (metadata_json "1-1.3.41")))
              (Text_json (metadata_json "1-1.3.41"))
              [("version", JStr "1-1.3.41")] "1-1.3.41")
    as (st' & Hrun & Hcache & Hdisk & _).
  - reflexivity.
  - vm_compute. reflexivity.
  - vm_compute. reflexivity.
  - reflexivity.
  - reflexivity.
  - discriminate.
  - exists st'. split; [exact Hrun |]. split; [apply Hcache |].
    rewrite Hdisk. apply insert_singleton_eq.
Defined.

Lemma configResolved_unreadable_metadata_witness :
  ∃ e st', configResolved Demo.swcVersion Demo.config
             (Demo.over (Text_malformed "{ version: "))
           = (Throw e, st')
    ∧ disk st' = Demo.old_disk (Text_malformed "{ version: ")
    ∧ cache st' = ∅.
Proof.
  destruct (configResolved_unreadable_metadata Demo.swcVersion Demo.config
              (Demo.over (Text_malformed "{ version: "))
              (Demo.old_files (Text_malformed "{ version: "))
              (Text_malformed "{ version: "))
    as (e & st' & Hrun & Hdisk & Hcache & _).
  - reflexivity.
  - vm_compute. reflexivity.
  - vm_compute. reflexivity.
  - left. reflexivity.
  - exists e, st'. split; [exact Hrun |]. split; [exact Hdisk | exact Hcache].
Defined.

Lemma transform_cached_next_session_witness :
  transform Demo.swc Demo.relative "let a;" Demo.a_tsx false Demo.next_session
  = ((transform Demo.swc Demo.relative "let a;" Demo.a_tsx false Demo.ready).1,
     Demo.next_session).
Proof.
  destruct (transform_cached_next_session Demo.swcVersion Demo.swc
              Demo.relative ∅ Demo.config "let a;" Demo.a_tsx false
              (Typescript true)
              {| out_code := "let a;" +:+ nl +:+ "$RefreshReg$(_c, "
                             +:+ dquote +:+ "App" +:+ dquote +:+ ");";
                 out_map := {| mappings := "AAAA;AACA";
                               other_fields := [("version", JNum 3)] |} |})
    as (_ & _ & _ & Hsame & _).
  - vm_compute. reflexivity.
  - apply not_vendored_by_test. reflexivity.
  - reflexivity.
  - vm_compute. discriminate.
  - vm_compute. discriminate.
  - reflexivity.
  - vm_compute. reflexivity.
  - exact Hsame.
Defined.

(** ** Where the plugin departs from the description *)

(** C1, as stated: within one session the entry of a compiled file does
    not reach the in-memory mapping, and the same call compiles again. *)
Lemma transform_recompiles_in_session :
  let o := swc_options Demo.a_tsx (Typescript true) false in
  let t1 := transform Demo.swc Demo.relative "let a;" Demo.a_tsx false
              Demo.ready in
  let t2 := transform Demo.swc Demo.relative "let a;" Demo.a_tsx false t1.2 in
  (∃ r, t1.1 = Return (Some r))
  ∧ cache t1.2 !! fileCachePath (Demo.relative "/p" Demo.a_tsx) false = None
  ∧ swc_calls t1.2 = [("let a;", o)]
  ∧ t2.1 = t1.1
  ∧ swc_calls t2.2 = [("let a;", o); ("let a;", o)].
Proof.
  cbv zeta. split; [eexists; vm_compute; reflexivity |].
  repeat split; vm_compute; reflexivity.
Qed.

(** C3, as stated: a file name with a line feed in it puts nine lines
    before the compiled code, against eight empty segments; the first line
    of the compiled code is then line 9 and its segment is segment 8. *)
Lemma inject_misaligned_for_broken_name :
  Js.includes refresh_marker (out_code Demo.registered) = true
  ∧ segments_prepended = 8%nat
  ∧ lines_prepended Demo.broken_name = 9%nat
  ∧ Js.split_on line_feed (out_code Demo.registered) !! 0%nat = Some "let a;"
  ∧ Js.split_on line_feed (out_code (inject Demo.broken_name Demo.registered))
      !! 9%nat = Some "  let a;"
  ∧ Js.split_on ";" (mappings (out_map Demo.registered)) !! 0%nat = Some "AAAA"
  ∧ Js.split_on ";"
      (mappings (out_map (inject Demo.broken_name Demo.registered)))
      !! 8%nat = Some "AAAA"
  ∧ Js.split_on ";"
      (mappings (out_map (inject Demo.broken_name Demo.registered)))
      !! 9%nat = Some "AACA".
Proof. repeat split; vm_compute; reflexivity. Qed.

(** C4: the server target is asked for no refresh code ([refresh] is off
    in the options), but the marker test has no guard on the target: a
    source that mentions the marker itself comes back wrapped in the
    refresh code when compiled for the server target. *)
Lemma transform_ssr_instrumented :
  let source := "const hook = '$RefreshReg$';" in
  refresh (react (swc_options Demo.a_tsx (Typescript true) true)) = false
  ∧ Demo.swc source (swc_options Demo.a_tsx (Typescript true) true)
    = inl {| out_code := source;
             out_map := {| mappings := "AAAA;AACA";
                           other_fields := [("version", JNum 3)] |} |}
  ∧ ∃ c m, (transform Demo.swc Demo.relative source Demo.a_tsx true
              Demo.ready).1
           = Return (Some {| res_code := Some (JStr c); res_map := m |})
           ∧ instrumented c.
Proof.
  cbv zeta. split; [reflexivity |]. split; [reflexivity |].
  exists (refresh_header Demo.a_tsx +:+ "const hook = '$RefreshReg$';"
          +:+ refresh_footer).
  eexists. split; [vm_compute; reflexivity |].
  by exists Demo.a_tsx, "const hook = '$RefreshReg$';".
Qed.


(** C10, as stated: a metadata file holding the number [5] is valid JSON
    that is no record; the hook does not throw, it takes the content for
    another version, empties the directory and writes a fresh record. *)
Lemma configResolved_number_metadata :
  JSON_parse (Text_json (JNum 5)) = Some (JNum 5)
  ∧ ∃ st', configResolved Demo.swcVersion Demo.config
             (Demo.over (Text_json (JNum 5)))
           = (Return tt, st')
      ∧ disk st' !! Demo.cache_dir
        = Some {[ "_metadata.json" := Text_json (metadata_json "1-1.3.42") ]}.
Proof.
  split; [reflexivity |]. eexists. split; [reflexivity |].
  vm_compute. reflexivity.
Qed.

(** * Further properties of the plugin *)

(** ** The choice of the parser *)

Lemma app_inv_tail_length (a b s t : string) :
  String.length s = String.length t → a +:+ s = b +:+ t → a = b ∧ s = t.
Proof.
  revert b; induction a as [|x a IH]; intros [|y b] Hlen H; simpl in *.
  - done.
  - apply (f_equal String.length) in H. simpl in H.
    rewrite JsFacts.length_app in H. lia.
  - apply (f_equal String.length) in H. simpl in H.
    rewrite JsFacts.length_app in H. lia.
  - injection H as -> H. destruct (IH b Hlen H) as [-> ->]. done.
Qed.

Lemma tsx_not_ts (id : string) :
  (∃ t, id = t +:+ ".tsx") → Js.endsWith ".ts" id = false.
Proof.
  intros [t ->]. apply not_true_iff_false. intros H.
  apply JsFacts.endsWith_spec in H as [u H].
  change (t +:+ ".tsx") with (t +:+ ".t" +:+ "sx") in H.
  change (u +:+ ".ts") with (u +:+ "." +:+ "ts") in H.
  rewrite <- !JsFacts.app_assoc in H.
  by apply app_inv_tail_length in H as [_ ?].
Qed.

Lemma jsx_not_ts (id : string) :
  (∃ t, id = t +:+ ".jsx") → Js.endsWith ".ts" id = false.
Proof.
  intros [t ->]. apply not_true_iff_false. intros H.
  apply JsFacts.endsWith_spec in H as [u H].
  change (t +:+ ".jsx") with (t +:+ ".j" +:+ "sx") in H.
  change (u +:+ ".ts") with (u +:+ "." +:+ "ts") in H.
  rewrite <- !JsFacts.app_assoc in H.
  by apply app_inv_tail_length in H as [_ ?].
Qed.

Lemma jsx_not_tsx (id : string) :
  (∃ t, id = t +:+ ".jsx") → Js.endsWith ".tsx" id = false.
Proof.
  intros [t ->]. apply not_true_iff_false. intros H.
  apply JsFacts.endsWith_spec in H as [u H].
  by apply app_inv_tail_length in H as [_ ?].
Qed.

(** X1: the parser is chosen by the ending of the file name alone, and the
    three endings exclude one another: TypeScript with markup exactly for
    [.tsx], TypeScript without markup exactly for [.ts], JavaScript with
    markup exactly for [.jsx]; JavaScript without markup is never chosen. *)
Theorem parser_of_kinds (id : string) :
  (parser_of id = Some (Typescript true) ↔ ∃ t, id = t +:+ ".tsx")
  ∧ (parser_of id = Some (Typescript false) ↔ ∃ t, id = t +:+ ".ts")
  ∧ (parser_of id = Some (Ecmascript true) ↔ ∃ t, id = t +:+ ".jsx")
  ∧ parser_of id ≠ Some (Ecmascript false)
  ∧ (∀ tsx, parser_of id = Some (Typescript tsx) →
       tsx = Js.endsWith "x" id).
Proof.
  unfold parser_of.
  destruct (Js.endsWith ".tsx" id) eqn:E1.
  { apply JsFacts.endsWith_spec in E1 as Hx.
    pose proof (tsx_not_ts id Hx) as E2.
    repeat split; try done.
    - intros Hts. apply JsFacts.endsWith_spec in Hts. congruence.
    - intros Hj. apply jsx_not_tsx in Hj.
      apply JsFacts.endsWith_spec in Hx. congruence.
    - intros tsx [= <-]. symmetry. apply JsFacts.endsWith_spec.
      destruct Hx as [t ->]. exists (t +:+ ".ts").
      by rewrite JsFacts.app_assoc. }
  destruct (Js.endsWith ".ts" id) eqn:E2.
  { apply JsFacts.endsWith_spec in E2 as Hs.
    repeat split; try done.
    - intros Hx. apply JsFacts.endsWith_spec in Hx. congruence.
    - intros Hj. apply jsx_not_ts in Hj. congruence.
    - intros tsx [= <-]. symmetry. apply not_true_iff_false. intros Hx.
      apply JsFacts.endsWith_spec in Hx as [u Hu]. destruct Hs as [t ->].
      change (t +:+ ".ts") with (t +:+ ".t" +:+ "s") in Hu.
      rewrite <- JsFacts.app_assoc in Hu.
      by apply app_inv_tail_length in Hu as [_ ?]. }
  destruct (Js.endsWith ".jsx" id) eqn:E3.
  { apply JsFacts.endsWith_spec in E3 as Hj.
    repeat split; try done.
    - intros Hx. apply JsFacts.endsWith_spec in Hx. congruence.
    - intros Hs. apply JsFacts.endsWith_spec in Hs. congruence. }
  repeat split; try done.
  - intros Hx. apply JsFacts.endsWith_spec in Hx. congruence.
  - intros Hs. apply JsFacts.endsWith_spec in Hs. congruence.
  - intros Hj. apply JsFacts.endsWith_spec in Hj. congruence.
Qed.

(** ** The position pattern and the scraper *)

Lemma match_line_col_none (s : string) :
  Js.match_line_col s = None → ∀ i l c, ¬ position_at s i l c.
Proof.
  induction s as [|x s IH].
  - intros _ i l c (a & b & H & _). by destruct a.
  - cbn [Js.match_line_col].
    destruct (Js.match_here (String x s)) as [[l' c']|] eqn:E; [done |].
    intros Hs [|i] l c Hp.
    + apply PatternFacts.match_here_complete in Hp. congruence.
    + apply PatternFacts.position_at_S in Hp. by apply (IH Hs i l c).
Qed.

(** X2: the matcher written for [/:(\d+):(\d+)]/] returns the two digit
    runs of the leftmost place where a colon, digits, a colon, digits and a
    closing bracket stand in the text, and nothing exactly when there is no
    such place. *)
Theorem match_line_col_exact (s : string) :
  (∀ l c, Js.match_line_col s = Some (l, c) ↔ first_position s l c)
  ∧ (Js.match_line_col s = None ↔ ∀ i l c, ¬ position_at s i l c).
Proof.
  split.
  - intros l c. split.
    + apply PatternFacts.match_line_col_sound.
    + apply PatternFacts.match_line_col_first.
  - split; [apply match_line_col_none |].
    intros Hno. destruct (Js.match_line_col s) as [[l c]|] eqn:E; [| done].
    apply PatternFacts.match_line_col_sound in E as (i & Hi & _).
    by destruct (Hno i l c).
Qed.

Lemma indexOf_first (n h : string) :
  Js.indexOf n h = -1
  ∨ ∃ k, Js.indexOf n h = Z.of_nat k ∧ first_occurrence n h k.
Proof.
  unfold Js.indexOf.
  destruct (JsFacts.indexOf_from_ge n h 0) as [H | H]; [lia | by left |].
  right. exists (Z.to_nat (Js.indexOf_from n h 0)).
  assert (Js.indexOf_from n h 0
          = 0 + Z.of_nat (Z.to_nat (Js.indexOf_from n h 0))) as E by lia.
  split; [lia |].
  by apply (first_occurrence_of_indexOf_from n h 0 _).
Qed.

(** X3: the catch block keeps the message and sets line and column
    together or not at all.  They are set exactly when the message holds
    the frame delimiter and a pattern [:l:c]] stands somewhere after its
    first occurrence; they are then the non-empty digit runs of the
    leftmost such pattern.  A delimiter with no pattern behind it gives no
    position. *)
Theorem enrich_exact (msg : string) :
  message (enrich msg) = msg
  ∧ (line (enrich msg) = None ↔ column (enrich msg) = None)
  ∧ (∀ l c,
       line (enrich msg) = Some l ∧ column (enrich msg) = Some c
       ↔ ∃ pre rest,
           msg = pre +:+ frame_delimiter +:+ rest
           ∧ first_occurrence frame_delimiter msg (String.length pre)
           ∧ first_position rest l c)
  ∧ (∀ l, line (enrich msg) = Some l → digits l = true ∧ l ≠ EmptyString)
  ∧ (∀ c, column (enrich msg) = Some c → digits c = true ∧ c ≠ EmptyString).
Proof.
  assert (∀ l c,
       line (enrich msg) = Some l ∧ column (enrich msg) = Some c
       ↔ ∃ pre rest,
           msg = pre +:+ frame_delimiter +:+ rest
           ∧ first_occurrence frame_delimiter msg (String.length pre)
           ∧ first_position rest l c) as Hpos.
  { intros l c. split.
    - unfold enrich.
      destruct (indexOf_first frame_delimiter msg)
        as [E | (k & E & Hk)]; rewrite E.
      { cbn. by intros [? _]. }
      destruct (Z.eqb_spec (Z.of_nat k) (-1)) as [? | _]; [lia |].
      cbn [negb].
      destruct Hk as [(pre & rest & Hmsg & Hlen) Hmin].
      subst k msg. rewrite JsFacts.slice_at.
      rewrite PatternFacts.match_line_col_delimiter.
      destruct (Js.match_line_col rest) as [[l' c']|] eqn:Em;
        cbn; [| by intros [? _]].
      intros [? ?]; simplify_eq. exists pre, rest.
      split; [done |]. split.
      + split; [by exists pre, rest | done].
      + by apply PatternFacts.match_line_col_sound.
    - intros (pre & rest & -> & Hd & Hp). by apply enrich_position. }
  split; [apply enrich_message |]. split.
  { unfold enrich. destruct (negb _); [| done].
    by destruct (Js.match_line_col _) as [[]|]. }
  split; [exact Hpos |]. split.
  - intros l Hl.
    assert (∃ c, column (enrich msg) = Some c) as [c Hc].
    { revert Hl. unfold enrich. destruct (negb _); [| done].
      destruct (Js.match_line_col _) as [[]|]; [eauto | done]. }
    destruct (proj1 (Hpos l c) (conj Hl Hc))
      as (_ & rest & _ & _ & i & (a & b & _ & _ & Hd & Hn & _) & _).
    done.
  - intros c Hc.
    assert (∃ l, line (enrich msg) = Some l) as [l Hl].
    { revert Hc. unfold enrich. destruct (negb _); [| done].
      destruct (Js.match_line_col _) as [[]|]; [eauto | done]. }
    destruct (proj1 (Hpos l c) (conj Hl Hc))
      as (_ & rest & _ & _ & i & (a & b & _ & _ & _ & _ & Hd & Hn) & _).
    done.
Qed.

(** ** The shape of the cache key *)

Lemma replace_slashes_no_slash (s : string) :
  Js.count_char "/" (Js.replace_slashes s) = 0%nat.
Proof.
  induction s as [|x s IH]; simpl; [done |].
  repeat case_bool_decide; simplify_eq; by rewrite IH.
Qed.

Lemma replace_slashes_length (s : string) :
  String.length (Js.replace_slashes s) = String.length s.
Proof. induction s as [|x s IH]; simpl; [done | by rewrite IH]. Qed.

Lemma parser_of_Some_eligible (q : string) :
  is_Some (parser_of q) → eligible_kind q.
Proof.
  intros [p Hp]. unfold parser_of in Hp.
  destruct (Js.endsWith ".tsx" q) eqn:E1.
  { left. by apply JsFacts.endsWith_spec. }
  destruct (Js.endsWith ".ts" q) eqn:E2.
  { right; left. by apply JsFacts.endsWith_spec. }
  destruct (Js.endsWith ".jsx" q) eqn:E3; [| done].
  right; right. by apply JsFacts.endsWith_spec.
Qed.

Lemma fileCachePath_no_slash (rel : string) (ssr : bool) :
  Js.count_char "/" (fileCachePath rel ssr) = 0%nat.
Proof.
  unfold fileCachePath.
  rewrite !TextFacts.count_char_app, replace_slashes_no_slash.
  by destruct ssr.
Qed.

(** X4: a cache key holds no directory separator, so the entry file lies
    directly in the cache directory; it ends in [.json], and it is as long
    as the relative path and the two suffixes together. *)
Theorem fileCachePath_flat (rel : string) (ssr : bool) :
  Js.count_char "/" (fileCachePath rel ssr) = 0%nat
  ∧ Js.endsWith ".json" (fileCachePath rel ssr) = true
  ∧ String.length (fileCachePath rel ssr)
    = (String.length rel + (if ssr then 4 else 0) + 5)%nat.
Proof.
  split; [| split]; [apply fileCachePath_no_slash | |]; unfold fileCachePath.
  - apply JsFacts.endsWith_spec. eexists. by rewrite JsFacts.app_assoc.
  - rewrite !JsFacts.length_app, replace_slashes_length.
    destruct ssr; simpl; lia.
Qed.

(** X5: the key of a relative path that names a file of a compiled kind is
    never the name of the metadata record, so writing the entry leaves the
    record alone, and the key is a name that the restore step reads. *)
Theorem fileCachePath_not_metadata (rel : string) (ssr : bool) :
  is_Some (parser_of rel) →
  fileCachePath rel ssr ≠ "_metadata.json"
  ∧ is_entry_file (fileCachePath rel ssr) = true.
Proof.
  intros Hrel.
  assert (fileCachePath rel ssr ≠ "_metadata.json") as Hne.
  { unfold fileCachePath. intros H.
    change "_metadata.json" with ("_metadata" +:+ ".json") in H.
    rewrite <- JsFacts.app_assoc in H.
    apply app_inv_tail_length in H as [H _]; [| done].
    destruct ssr.
    - change "_metadata" with ("_metadat" +:+ "a") in H.
      change (Js.replace_slashes rel +:+ "-srr")
        with (Js.replace_slashes rel +:+ "-sr" +:+ "r") in H.
      rewrite <- JsFacts.app_assoc in H.
      by apply TextFacts.app_last_inj in H as [_ ?].
    - rewrite JsFacts.app_empty_r in H.
      destruct (parser_of_Some_eligible rel Hrel) as [He | [He | He]].
      + apply (replace_slashes_suffix ".tsx") in He as [u Hu]; [| done].
        rewrite Hu in H.
        change (u +:+ ".tsx") with (u +:+ ".ts" +:+ "x") in H.
        change "_metadata" with ("_metadat" +:+ "a") in H.
        rewrite <- JsFacts.app_assoc in H.
        by apply TextFacts.app_last_inj in H as [_ ?].
      + apply (replace_slashes_suffix ".ts") in He as [u Hu]; [| done].
        rewrite Hu in H.
        change (u +:+ ".ts") with (u +:+ ".t" +:+ "s") in H.
        change "_metadata" with ("_metadat" +:+ "a") in H.
        rewrite <- JsFacts.app_assoc in H.
        by apply TextFacts.app_last_inj in H as [_ ?].
      + apply (replace_slashes_suffix ".jsx") in He as [u Hu]; [| done].
        rewrite Hu in H.
        change (u +:+ ".jsx") with (u +:+ ".js" +:+ "x") in H.
        change "_metadata" with ("_metadat" +:+ "a") in H.
        rewrite <- JsFacts.app_assoc in H.
        by apply TextFacts.app_last_inj in H as [_ ?]. }
  split; [exact Hne | by apply fileCachePath_entry_file].
Qed.

(** ** What a call of [transform] does to the session *)

Section TransformMore.

Variable swc : string -> Options -> Output + string.
Variable relative : string -> string -> string.

(** X6: whatever it is called on, [transform] leaves the in-memory mapping
    and the two paths as they are.  It invokes the transformer at most
    once, on the text it was given and with the options of the file; it
    starts at most one write, of a file directly in the cache directory,
    and only along with a returned result, whose code and map it writes
    beside the text as [input]: a call that throws starts none. *)
Theorem transform_frame (code id : string) (ssr : bool) (st : State) :
  let r := transform swc relative code id ssr st in
  cache r.2 = cache st ∧ root r.2 = root st
  ∧ cachePath r.2 = cachePath st
  ∧ (swc_calls r.2 = swc_calls st
     ∨ ∃ p, parser_of id = Some p
            ∧ swc_calls r.2 = swc_calls st ++ [(code, swc_options id p ssr)])
  ∧ (writes r.2 = writes st
     ∨ ∃ c m name,
         r.1 = Return (Some {| res_code := Some c; res_map := Some m |})
         ∧ writes r.2
           = writes st
             ++ [(template_of (cachePath st), name,
                  JSON_stringify
                    (JObj [("input", JStr code); ("code", c); ("map", m)]))]
         ∧ Js.count_char "/" name = 0%nat)
  ∧ (∀ e, r.1 = Throw e → writes r.2 = writes st).
Proof.
  unfold transform.
  destruct (Js.includes "node_modules" id).
  { repeat split; auto; done. }
  destruct (parser_of id) as [p|] eqn:Hp.
  2: { repeat split; auto; done. }
  destruct (root st) as [r|] eqn:Hr.
  2: { repeat split; auto; done. }
  destruct (strict_eq_string _ code).
  { repeat split; auto; done. }
  destruct (swc code _) as [result | msg]; cbn.
  - repeat split; try done.
    + right. by exists p.
    + right. do 3 eexists. split; [done |]. split; [done |].
      apply fileCachePath_no_slash.
  - repeat split; try done; auto.
    right. by exists p.
Qed.

(** X7: the two targets of one file do not share an entry.  When the only
    entries of the mapping are under the key of the other target, a call
    for this target does not answer from them: it invokes the transformer,
    with refresh switched on exactly for the normal target. *)
Theorem transform_targets_isolated (code id : string) (ssr : bool)
    (st : State) (p : ParserConfig) (r : string) :
  ¬ vendored id → parser_of id = Some p → root st = Some r →
  (∀ k v, cache st !! k = Some v →
          k = fileCachePath (relative r id) (negb ssr)) →
  swc_calls (transform swc relative code id ssr st).2
  = swc_calls st ++ [(code, swc_options id p ssr)]
  ∧ refresh (react (swc_options id p ssr)) = negb ssr.
Proof.
  intros Hv Hp Hr Honly. split; [| done].
  assert (cache st !! fileCachePath (relative r id) ssr = None) as Hnone.
  { destruct (cache st !! fileCachePath (relative r id) ssr) as [v|] eqn:E;
      [| done].
    apply Honly in E. exfalso.
    destruct ssr; simpl in E.
    - by apply fileCachePath_target in E.
    - symmetry in E. by apply fileCachePath_target in E. }
  assert (optional_prop "input"
            (cache st !! fileCachePath (relative r id) ssr)
          ≠ Some (JStr code)) as Hmiss by (by rewrite Hnone).
  destruct (swc code (swc_options id p ssr)) as [result | msg] eqn:Hs.
  - by rewrite (transform_compiled _ _ _ _ _ _ _ _ _ Hv Hp Hr Hmiss Hs).
  - by rewrite (transform_failed _ _ _ _ _ _ _ _ _ Hv Hp Hr Hmiss Hs).
Qed.

(** X8: for either target, the code returned by a compilation carries the
    injected wrapper exactly when the transformer's output contains the
    registration marker.  The transformer's code is always contained in it
    as it is, and the returned mappings are the transformer's, behind the
    eight empty segments exactly in the wrapped case. *)
Theorem transform_instrumented_iff (code id : string) (ssr : bool)
    (st : State) (p : ParserConfig) (r : string) (result : Output) :
  ¬ vendored id → parser_of id = Some p → root st = Some r →
  optional_prop "input" (cache st !! fileCachePath (relative r id) ssr)
    ≠ Some (JStr code) →
  swc code (swc_options id p ssr) = inl result →
  ∃ c m, (transform swc relative code id ssr st).1
         = Return (Some {| res_code := Some (JStr c); res_map := Some m |})
    ∧ (instrumented c ↔ Js.includes refresh_marker (out_code result) = true)
    ∧ (∃ a b, c = a +:+ out_code result +:+ b)
    ∧ prop "mappings" m
      = Some (JStr ((if Js.includes refresh_marker (out_code result)
                     then mappings_prefix else EmptyString)
                    +:+ mappings (out_map result))).
Proof.
  intros Hv Hp Hr Hmiss Hs.
  rewrite (transform_compiled _ _ _ _ _ _ _ _ _ Hv Hp Hr Hmiss Hs).
  do 2 eexists. split; [done |]. unfold inject.
  destruct (Js.includes refresh_marker (out_code result)) eqn:Hm; cbn.
  - split; [| split].
    + split; [done |]. intros _. by exists id, (out_code result).
    + by exists (refresh_header id), refresh_footer.
    + reflexivity.
  - split; [| split].
    + split; [| done]. intros Hi.
      apply instrumented_has_marker in Hi. congruence.
    + exists EmptyString, EmptyString. by rewrite JsFacts.app_empty_r.
    + reflexivity.
Qed.

Lemma transform_outcome_ext (code id : string) (ssr : bool) (s s' : State) :
  root s = root s' → cache s = cache s' →
  (transform swc relative code id ssr s).1
  = (transform swc relative code id ssr s').1.
Proof.
  intros Hr Hc. unfold transform. rewrite Hr, Hc.
  destruct (Js.includes "node_modules" id); [done |].
  destruct (parser_of id); [| done].
  destruct (root s'); [| done].
  destruct (strict_eq_string _ code); [done |].
  by destruct (swc code _).
Qed.

Lemma transform_all_keeps (reqs : list Request) (st : State) :
  cache (transform_all swc relative reqs st) = cache st
  ∧ root (transform_all swc relative reqs st) = root st
  ∧ cachePath (transform_all swc relative reqs st) = cachePath st
  ∧ disk (transform_all swc relative reqs st) = disk st.
Proof.
  revert st; induction reqs as [|q reqs IH]; intros st; [done |].
  cbn [transform_all foldl].
  destruct (IH (transform swc relative (req_code q) (req_id q) (req_ssr q)
                  st).2) as (H1 & H2 & H3 & H4).
  destruct (transform_keeps_cache swc relative (req_code q) (req_id q)
              (req_ssr q) st) as (K1 & K2 & K3 & K4).
  unfold transform_all in *.
  rewrite H1, H2, H3, H4, K1, K2, K3, K4. done.
Qed.

Lemma transform_calls_grow (code id : string) (ssr : bool) (st : State) :
  (length (swc_calls st)
   ≤ length (swc_calls (transform swc relative code id ssr st).2))%nat.
Proof.
  unfold transform.
  destruct (Js.includes "node_modules" id); [done |].
  destruct (parser_of id); [| done].
  destruct (root st); [| done].
  destruct (strict_eq_string _ code); [done |].
  destruct (swc code _); cbn; rewrite length_app; lia.
Qed.

Lemma transform_invokes_ext (code id : string) (ssr : bool) (s s' : State) :
  root s = root s' → cache s = cache s' →
  (swc_calls (transform swc relative code id ssr s).2 = swc_calls s
   ↔ swc_calls (transform swc relative code id ssr s').2 = swc_calls s').
Proof.
  intros Hr Hc. unfold transform. rewrite Hr, Hc.
  destruct (Js.includes "node_modules" id); [done |].
  destruct (parser_of id); [| done].
  destruct (root s'); [| done].
  destruct (strict_eq_string _ code); [done |].
  destruct (swc code _); cbn; split; intros H;
    apply (f_equal length) in H; rewrite length_app in H; simpl in H; lia.
Qed.

(** X9: what [transform] answers does not depend on the requests served
    before it in the session, nor on what their writes have done to the
    disk meanwhile: after any sequence of calls the mapping is the one the
    session started with, and over any disk a request gets the completion
    it would have got first, with the transformer invoked for it exactly
    if it would have been invoked then.  In particular a text that was
    compiled before is compiled again. *)
Theorem transform_answer_stable (reqs : list Request) (code id : string)
    (ssr : bool) (st : State) (d : gmap string (gmap string text)) :
  let later := set_disk d (transform_all swc relative reqs st) in
  (transform swc relative code id ssr later).1
  = (transform swc relative code id ssr st).1
  ∧ (swc_calls (transform swc relative code id ssr later).2 = swc_calls later
     ↔ swc_calls (transform swc relative code id ssr st).2 = swc_calls st)
  ∧ cache (transform_all swc relative reqs st) = cache st
  ∧ (length (swc_calls st)
     ≤ length (swc_calls (transform_all swc relative reqs st)))%nat.
Proof.
  destruct (transform_all_keeps reqs st) as (H1 & H2 & _ & _).
  cbn zeta.
  split; [by apply transform_outcome_ext |].
  split; [by apply transform_invokes_ext |]. split; [done |].
  clear H1 H2. revert st; induction reqs as [|q reqs IH]; intros st;
    [done |].
  cbn [transform_all foldl]. etrans; [| apply IH].
  apply transform_calls_grow.
Qed.

End TransformMore.

(** ** The configuration-resolved hook, branch by branch *)

Lemma elem_of_entry_files (files : gmap string text) (k : string) :
  k ∈ List.filter is_entry_file (Fs.readdirSync files)
  ↔ is_entry_file k = true ∧ is_Some (files !! k).
Proof.
  rewrite list_elem_of_In, filter_In, <- list_elem_of_In.
  unfold Fs.readdirSync. rewrite list_elem_of_fmap. split.
  - intros [([k' t] & -> & Hin) Hk]. split; [done |].
    apply elem_of_map_to_list in Hin. by exists t.
  - intros [Hk [t Ht]]. split; [| done].
    exists (k, t). split; [done |]. by apply elem_of_map_to_list.
Qed.

Lemma restore_lookup_exact (files : gmap string text) (k : string) :
  (restore files ∅).1 !! k
  = if is_entry_file k then files !! k ≫= JSON_parse else None.
Proof.
  unfold restore. rewrite restore_fold_lookup, lookup_empty.
  destruct (decide (k ∈ List.filter is_entry_file (Fs.readdirSync files)))
    as [Hin | Hout].
  - apply elem_of_entry_files in Hin as [-> _].
    by destruct (files !! k ≫= JSON_parse).
  - destruct (is_entry_file k) eqn:Hk; [| done].
    destruct (files !! k) as [t|] eqn:Ht; [| done].
    exfalso. apply Hout, elem_of_entry_files. eauto.
Qed.

Lemma restore_fold_flag (files : gmap string text) (c : gmap string json)
    (names : list string) :
  (foldr (restore_file files) (c, true) names).2 = true
  ↔ ∀ f, f ∈ names → is_Some (files !! f ≫= JSON_parse).
Proof.
  induction names as [|f names IH]; cbn [foldr].
  - split; [intros _ f Hf; by apply not_elem_of_nil in Hf | done].
  - unfold restore_file at 1.
    destruct (files !! f ≫= JSON_parse) as [v|] eqn:E; cbn.
    + rewrite IH. split.
      * intros H g [-> | Hg]%elem_of_cons; [by rewrite E | auto].
      * intros H g Hg. apply H. by apply list_elem_of_further.
    + split; [done |]. intros H.
      destruct (H f (list_elem_of_here _ _)) as [v Hv]. congruence.
Qed.

Lemma restore_flag (files : gmap string text) (c : gmap string json) :
  (restore files c).2 = true
  ↔ ∀ k t, is_entry_file k = true → files !! k = Some t →
           is_Some (JSON_parse t).
Proof.
  unfold restore. rewrite restore_fold_flag. split.
  - intros H k t Hk Ht.
    assert (k ∈ List.filter is_entry_file (Fs.readdirSync files)) as Hin.
    { apply elem_of_entry_files. eauto. }
    apply H in Hin. by rewrite Ht in Hin.
  - intros H k [Hk [t Ht]]%elem_of_entry_files. rewrite Ht. cbn. eauto.
Qed.

Section ResolveMore.

Variable swcVersion : string.

Lemma write_metadata_frame (dir : string) (s : State) :
  let r := write_metadata swcVersion dir s in
  writes r.2 = writes s ∧ swc_calls r.2 = swc_calls s
  ∧ root r.2 = root s ∧ cachePath r.2 = cachePath s ∧ cache r.2 = cache s
  ∧ ∀ d, d ≠ dir → disk r.2 !! d = disk s !! d.
Proof.
  unfold write_metadata, Fs.writeFile.
  destruct (disk s !! dir); cbn; repeat split; try done.
  intros d Hd. by rewrite lookup_insert_ne.
Qed.

(** The hook over a metadata record of the current version, in full. *)
Lemma configResolved_match_run (cfg : ResolvedConfig) (st : State)
    (files : gmap string text) (meta : text) (v : json) :
  let dir := join (config_cacheDir cfg) "swc-cache" in
  let fresh := JSON_stringify (metadata_json (cache_version swcVersion)) in
  cache st = ∅ →
  disk st !! dir = Some files →
  files !! "_metadata.json" = Some meta →
  JSON_parse meta = Some v → v ≠ JNull →
  prop "version" v = Some (JStr (cache_version swcVersion)) →
  configResolved swcVersion cfg st
  = (if (restore files ∅).2 then Return tt else Throw SyntaxError,
     {| root := Some (config_root cfg); cachePath := Some dir;
        cache := (restore files ∅).1;
        disk := if (restore files ∅).2
                then <[dir := <["_metadata.json" := fresh]> files]> (disk st)
                else disk st;
        writes := writes st; swc_calls := swc_calls st |}).
Proof.
  intros dir fresh Hc Hd Hm Hp Hnull Hv. unfold configResolved.
  rewrite (empty_cache_goes_on _ Hc).
  destruct (existsSync_true _ _ _ _ _ Hd Hm) as [He Hread].
  fold dir. cbn [disk set_paths]. rewrite He, Hread, Hp.
  assert (strict_eq_string (prop "version" v) (cache_version swcVersion)
          = true) as Heq by (by apply strict_eq_string_true).
  destruct v; try done; rewrite Heq, Hd; cbn [cache set_paths]; rewrite Hc;
    destruct (restore files ∅) as [c ok]; destruct ok; cbn [fst snd];
    try done;
    unfold write_metadata, Fs.writeFile; cbn [disk set_cache set_paths];
    by rewrite Hd.
Qed.

(** X10: a starting session that finds no metadata record creates what is
    missing and does not look at entry files: the hook returns normally,
    the mapping stays empty, a directory that was there keeps its files,
    and the record of the current version is written into it. *)
Theorem configResolved_fresh (cfg : ResolvedConfig) (st : State) :
  let dir := join (config_cacheDir cfg) "swc-cache" in
  cache st = ∅ →
  (∀ files, disk st !! dir = Some files →
            files !! "_metadata.json" = None) →
  ∃ st', configResolved swcVersion cfg st = (Return tt, st')
    ∧ cache st' = ∅
    ∧ root st' = Some (config_root cfg) ∧ cachePath st' = Some dir
    ∧ disk st'
      = <[dir := <["_metadata.json" :=
                     JSON_stringify (metadata_json (cache_version swcVersion))]>
                   (default ∅ (disk st !! dir))]> (disk st).
Proof.
  intros dir Hc Hno. unfold configResolved.
  rewrite (empty_cache_goes_on _ Hc). fold dir.
  unfold Fs.existsSync, Fs.mkdirSync_recursive, write_metadata, Fs.writeFile.
  cbn [disk set_paths set_disk].
  destruct (disk st !! dir) as [files|] eqn:Hd.
  - rewrite (Hno files eq_refl).
    rewrite bool_decide_eq_false_2 by (by intros [? ?]).
    cbn [disk set_paths set_disk]. rewrite Hd.
    eexists. split; [done |]. by repeat split.
  - cbn [disk set_paths set_disk]. rewrite lookup_insert_eq.
    eexists. split; [done |]. cbn. repeat split; try done.
    by rewrite insert_insert_eq.
Qed.

(** X11: over a metadata record of the current version a starting session
    restores.  If every file of the directory whose name ends in [.json]
    and is not the metadata record parses, the hook returns normally, the
    mapping then holds exactly those files, each under its file name, and
    the record is rewritten.  If one of them does not parse, the hook
    throws a syntax error and has written nothing. *)
Theorem configResolved_restore_exact (cfg : ResolvedConfig) (st : State)
    (files : gmap string text) (meta : text) (v : json) :
  let dir := join (config_cacheDir cfg) "swc-cache" in
  let r := configResolved swcVersion cfg st in
  cache st = ∅ →
  disk st !! dir = Some files →
  files !! "_metadata.json" = Some meta →
  JSON_parse meta = Some v → v ≠ JNull →
  prop "version" v = Some (JStr (cache_version swcVersion)) →
  ((∀ k t, is_entry_file k = true → files !! k = Some t →
           is_Some (JSON_parse t)) →
   r.1 = Return tt
   ∧ (∀ k, cache r.2 !! k
           = if is_entry_file k then files !! k ≫= JSON_parse else None)
   ∧ disk r.2
     = <[dir := <["_metadata.json" :=
                    JSON_stringify
                      (metadata_json (cache_version swcVersion))]> files]>
         (disk st))
  ∧ ((∃ k t, is_entry_file k = true ∧ files !! k = Some t
             ∧ JSON_parse t = None) →
     r.1 = Throw SyntaxError ∧ disk r.2 = disk st).
Proof.
  intros dir r Hc Hd Hm Hp Hnull Hv. unfold r.
  rewrite (configResolved_match_run cfg st files meta v Hc Hd Hm Hp Hnull Hv).
  cbn [fst snd cache disk]. split.
  - intros Hall. rewrite (proj2 (restore_flag files ∅) Hall).
    split; [done |]. split; [| done]. apply restore_lookup_exact.
  - intros (k & t & Hk & Ht & Hbad).
    destruct ((restore files ∅).2) eqn:E; [| done].
    exfalso. pose proof (proj1 (restore_flag files ∅) E) as E'.
    destruct (E' k t Hk Ht) as [? ?]. congruence.
Qed.

(** X12: once a starting session has resolved its configuration, resolving
    it again never changes the disk, whether the second call is the no-op
    of a populated mapping, a restore, or a failed restore. *)
Theorem configResolved_again_keeps_disk (cfg : ResolvedConfig) (st : State) :
  cache st = ∅ →
  (configResolved swcVersion cfg st).1 = Return tt →
  disk (configResolved swcVersion cfg
          (configResolved swcVersion cfg st).2).2
  = disk (configResolved swcVersion cfg st).2.
Proof.
  intros Hc Hok.
  destruct (configResolved_ok swcVersion cfg st Hc Hok)
    as (_ & _ & _ & _ & files & Hd & Hm).
  set (s1 := (configResolved swcVersion cfg st).2) in *.
  destruct (size (cache s1)) as [|n] eqn:Hsize.
  - apply map_size_empty_inv in Hsize.
    rewrite (configResolved_match_run cfg s1 files _ _ Hsize Hd Hm eq_refl).
    + cbn [snd disk]. destruct ((restore files ∅).2); [| done].
      by rewrite (insert_id files), (insert_id (disk s1)).
    + done.
    + cbn. by rewrite bool_decide_eq_true_2.
  - unfold configResolved at 1. rewrite Hsize. done.
Qed.

Lemma write_metadata_throws (dir : string) (s : State) (e : thrown) :
  (write_metadata swcVersion dir s).1 = Throw e →
  disk s !! dir = None ∧ (write_metadata swcVersion dir s).2 = s.
Proof.
  unfold write_metadata, Fs.writeFile.
  by destruct (disk s !! dir).
Qed.

(** X13: the hook starts no write and invokes no transformer.  Either it is
    the no-op of a populated mapping, or the project root and the cache
    path are those of the configuration afterwards, also when it throws;
    and when it throws, over a metadata text that does not parse or is
    [null] or over an entry file that does not parse, it has changed
    nothing on the disk. *)
Theorem configResolved_frame (cfg : ResolvedConfig) (st : State) :
  let dir := join (config_cacheDir cfg) "swc-cache" in
  let r := configResolved swcVersion cfg st in
  writes r.2 = writes st ∧ swc_calls r.2 = swc_calls st
  ∧ (r = (Return tt, st)
     ∨ root r.2 = Some (config_root cfg) ∧ cachePath r.2 = Some dir)
  ∧ (∀ e, r.1 = Throw e → disk r.2 = disk st).
Proof.
  intros dir r. unfold r, configResolved.
  destruct (0 <? size (cache st))%nat; [by repeat split; auto |].
  fold dir.
  assert (∀ s, writes s = writes st → swc_calls s = swc_calls st →
               root s = Some (config_root cfg) → cachePath s = Some dir →
               (disk s = disk st ∨ is_Some (disk s !! dir)) →
               let w := write_metadata swcVersion dir s in
               writes w.2 = writes st ∧ swc_calls w.2 = swc_calls st
               ∧ (w = (Return tt, st)
                  ∨ root w.2 = Some (config_root cfg)
                    ∧ cachePath w.2 = Some dir)
               ∧ (∀ e, w.1 = Throw e → disk w.2 = disk st)) as Hfin.
  { intros s H1 H2 H4 H5 Hdisk.
    destruct (write_metadata_frame dir s) as (W1 & W2 & W3 & W4 & _ & _).
    cbn zeta. rewrite W1, W2, W3, W4. repeat split; try done.
    - right. done.
    - intros e He. destruct (write_metadata_throws dir s e He) as [Hn ->].
      destruct Hdisk as [-> | [? Hs]]; [done | congruence]. }
  destruct (Fs.existsSync _ dir "_metadata.json").
  - destruct (Fs.readFile _ dir "_metadata.json") as [content|];
      [| repeat split; auto; right; done].
    destruct (JSON_parse content) as [prev|];
      [| repeat split; auto; right; done].
    destruct prev; try (repeat split; auto; right; done);
      (destruct (strict_eq_string _ _);
       [ cbn [disk set_paths]; destruct (disk st !! dir) as [files|];
         [| repeat split; auto; right; done];
         destruct (restore files _) as [c ok]; destruct ok;
         [apply Hfin; try done; by left
         | repeat split; auto; right; done]
       | unfold Fs.mkdirSync, Fs.rmSync; cbn [disk set_paths];
         rewrite lookup_delete_eq; apply Hfin; try done;
         right; cbn; rewrite lookup_insert_eq; by eexists ]).
  - apply Hfin; try done. right. cbn.
    unfold Fs.mkdirSync_recursive.
    destruct (disk st !! dir) eqn:E; [by rewrite E | ].
    rewrite lookup_insert_eq. by eexists.
Qed.

(** X14: any metadata text that parses to something other than [null] and
    whose [version] property is not the current version string is taken
    for another version, be it a record of an older version, a record
    without a version, a number or a list: the hook of a starting session
    returns normally, restores nothing, and leaves the directory with the
    fresh record alone in it. *)
Theorem configResolved_other_version (cfg : ResolvedConfig) (st : State)
    (files : gmap string text) (meta : text) (v : json) :
  let dir := join (config_cacheDir cfg) "swc-cache" in
  cache st = ∅ →
  disk st !! dir = Some files →
  files !! "_metadata.json" = Some meta →
  JSON_parse meta = Some v → v ≠ JNull →
  prop "version" v ≠ Some (JStr (cache_version swcVersion)) →
  ∃ st', configResolved swcVersion cfg st = (Return tt, st')
    ∧ cache st' = ∅
    ∧ disk st'
      = <[dir := {[ "_metadata.json" :=
                     JSON_stringify (metadata_json (cache_version swcVersion)) ]}]>
          (disk st).
Proof.
  intros dir Hc Hd Hm Hp Hnull Hv. unfold configResolved.
  rewrite (empty_cache_goes_on _ Hc).
  destruct (existsSync_true _ _ _ _ _ Hd Hm) as [He Hread].
  fold dir. cbn [disk set_paths]. rewrite He, Hread, Hp.
  assert (strict_eq_string (prop "version" v) (cache_version swcVersion)
          = false) as Hneq.
  { apply not_true_iff_false. intros E.
    by apply strict_eq_string_true in E. }
  destruct v; try done; rewrite Hneq;
    unfold Fs.mkdirSync, Fs.rmSync; rewrite lookup_delete_eq;
    unfold write_metadata, Fs.writeFile; cbn [disk set_disk];
    rewrite lookup_insert_eq; (eexists; split; [done |]);
    cbn [cache disk set_disk set_paths];
    (split; [done |]);
    by rewrite insert_insert_eq, insert_delete_eq, insert_empty.
Qed.

End ResolveMore.

(** ** The virtual module of the refresh runtime *)

(** X15: [load] serves exactly the ids that [resolveId] claims.  An id that
    [resolveId] leaves alone is left alone by [load] without a read; the
    one it claims resolves to itself and is answered with the text of
    [refresh-runtime.js] next to the plugin, or with the read error when
    that file is missing. *)
Theorem load_serves_resolved (d : gmap string (gmap string text))
    (dirname id : string) :
  (∀ x, resolveId id = Some x → x = id ∧ resolveId x = Some x)
  ∧ (resolveId id = None → load d dirname id = Return None)
  ∧ (∀ t, load d dirname id = Return (Some t)
          ↔ resolveId id = Some id
            ∧ Fs.readFile d dirname "refresh-runtime.js" = Some t)
  ∧ (load d dirname id = Throw (FsError "ENOENT")
     ↔ resolveId id = Some id
       ∧ Fs.readFile d dirname "refresh-runtime.js" = None).
Proof.
  unfold resolveId, load. case_bool_decide as Hid.
  - subst id. split.
    { intros x [= <-]. by rewrite bool_decide_eq_true_2. }
    split; [done |].
    destruct (Fs.readFile d dirname "refresh-runtime.js") as [t'|].
    + split; [| by split; [| intros [_ ?]]].
      intros t. split; [by intros [= ->] | by intros [_ [= ->]]].
    + split; [| done]. intros t. split; [done | by intros [_ ?]].
  - split; [done |]. split; [done |]. split.
    + intros t. split; [done | by intros [? _]].
    + split; [done | by intros [? _]].
Qed.

(** ** The wrapper for any file name *)

Lemma wrapped_line_any (id code : string) (k : nat) (l : string) :
  Js.split_on line_feed code !! k = Some l →
  Js.split_on line_feed (refresh_header id +:+ code +:+ refresh_footer)
    !! (8 + Js.count_char line_feed id + k)%nat
  = Some (match k with O => "  " +:+ l | S _ => l end).
Proof.
  intros Hl.
  pose (front := header_before_id +:+ id +:+ dquote +:+ ");" +:+ nl
    +:+ "  window.$RefreshSig$ = RefreshRuntime.createSignatureFunctionForTransform;"
    +:+ nl +:+ "  ").
  assert (∃ back, refresh_header id +:+ code +:+ refresh_footer
          = front +:+ String line_feed
              (("  " +:+ code) +:+ String line_feed back)) as [back ->].
  { eexists. unfold refresh_header, front.
    rewrite !JsFacts.app_assoc. reflexivity. }
  assert (Js.count_char line_feed front
          = (7 + Js.count_char line_feed id)%nat) as Hfront.
  { unfold front. rewrite !TextFacts.count_char_app.
    change (Js.count_char line_feed header_before_id) with 5%nat.
    change (Js.count_char line_feed dquote) with 0%nat.
    change (Js.count_char line_feed ");") with 0%nat.
    change (Js.count_char line_feed nl) with 1%nat.
    change (Js.count_char line_feed "  ") with 0%nat.
    change (Js.count_char line_feed
      "  window.$RefreshSig$ = RefreshRuntime.createSignatureFunctionForTransform;")
      with 0%nat.
    lia. }
  replace (8 + Js.count_char line_feed id + k)%nat
    with (S (Js.count_char line_feed front) + k)%nat by lia.
  rewrite lookup_split_shift, TextFacts.split_on_sep.
  pose proof (lookup_split_indent line_feed "  " code k l eq_refl Hl) as Hk.
  rewrite lookup_app_l; [done |].
  by apply lookup_lt_Some in Hk.
Qed.

(** X16: for any file name, injection puts line [k] of the compiled code
    (the first one indented by two blanks) as many lines further as the
    header is long, which is eight plus the number of line feeds in the
    file name, while its segment of the mappings always moves by eight: the
    two drift apart by exactly the line feeds of the file name. *)
Theorem inject_line_drift (id : string) (result : Output) :
  Js.includes refresh_marker (out_code result) = true →
  lines_prepended id
  = (segments_prepended + Js.count_char line_feed id)%nat
  ∧ ∀ k l,
      Js.split_on line_feed (out_code result) !! k = Some l →
      Js.split_on line_feed (out_code (inject id result))
        !! (lines_prepended id + k)%nat
      = Some (match k with O => "  " +:+ l | S _ => l end)
      ∧ Js.split_on ";" (mappings (out_map (inject id result)))
          !! (segments_prepended + k)%nat
        = Js.split_on ";" (mappings (out_map result)) !! k.
Proof.
  intros Hm. unfold inject. rewrite Hm. cbn [out_code out_map mappings].
  rewrite lines_prepended_eq, segments_prepended_eq. split; [done |].
  intros k l Hl. split; [by apply wrapped_line_any | apply shifted_segment].
Qed.

(** ** The further properties on examples *)

Lemma fileCachePath_not_metadata_witness :
  fileCachePath "src/_metadata.ts" false ≠ "_metadata.json"
  ∧ is_entry_file (fileCachePath "src/_metadata.ts" false) = true.
Proof.
  apply (fileCachePath_not_metadata "src/_metadata.ts" false).
  eexists. reflexivity.
Defined.

Lemma restored_mapping :
  cache Demo.restored
  = {[ "src|a.tsx.json" :=
         JObj [("input", JStr "let a;"); ("code", JStr "let a;");
               ("map", JObj [("mappings", JStr "AAAA")])] ]}.
Proof. apply map_eq. intros k. unfold Demo.restored.
  destruct (configResolved_restores Demo.swcVersion Demo.config
              (Demo.over (Text_json (metadata_json "1-1.3.42")))
              (Demo.old_files (Text_json (metadata_json "1-1.3.42"))))
    as (Hc & _); [reflexivity | vm_compute; reflexivity | reflexivity |].
  rewrite Hc, restore_lookup_exact.
  destruct (decide (k = "src|a.tsx.json")) as [-> | Hne].
  - vm_compute. reflexivity.
  - rewrite lookup_singleton_ne by done.
    destruct (is_entry_file k) eqn:Hk; [| done].
    unfold Demo.old_files. rewrite lookup_insert_ne.
    + by rewrite lookup_singleton_ne.
    + intros <-. by vm_compute in Hk.
Qed.

Lemma transform_targets_isolated_witness :
  swc_calls (transform Demo.swc Demo.relative "let a;" Demo.a_tsx true
               Demo.restored).2
  = swc_calls Demo.restored
    ++ [("let a;", swc_options Demo.a_tsx (Typescript true) true)]
  ∧ refresh (react (swc_options Demo.a_tsx (Typescript true) true)) = false.
Proof.
  apply (transform_targets_isolated Demo.swc Demo.relative "let a;"
           Demo.a_tsx true Demo.restored (Typescript true) "/p").
  - apply not_vendored_by_test. reflexivity.
  - reflexivity.
  - vm_compute. reflexivity.
  - intros k v. rewrite restored_mapping.
    intros [<- _]%lookup_singleton_Some. reflexivity.
Defined.

Lemma transform_instrumented_iff_witness :
  ∃ c m, (transform Demo.swc Demo.relative "let a;" Demo.a_tsx false
            Demo.ready).1
         = Return (Some {| res_code := Some (JStr c); res_map := Some m |})
    ∧ instrumented c
    ∧ prop "mappings" m = Some (JStr ";;;;;;;;AAAA;AACA").
Proof.
  destruct (transform_instrumented_iff Demo.swc Demo.relative "let a;"
              Demo.a_tsx false Demo.ready (Typescript true) "/p"
              {| out_code := "let a;" +:+ nl +:+ "$RefreshReg$(_c, "
                             +:+ dquote +:+ "App" +:+ dquote +:+ ");";
                 out_map := {| mappings := "AAAA;AACA";
                               other_fields := [("version", JNum 3)] |} |})
    as (c & m & Hres & Hiff & _ & Hmap).
  - apply not_vendored_by_test. reflexivity.
  - reflexivity.
  - vm_compute. reflexivity.
  - vm_compute. discriminate.
  - reflexivity.
  - exists c, m. split; [exact Hres |]. split.
    + apply Hiff. reflexivity.
    + exact Hmap.
Defined.

Lemma configResolved_fresh_witness :
  ∃ st', configResolved Demo.swcVersion Demo.config (initial_state ∅)
         = (Return tt, st')
    ∧ cache st' = ∅
    ∧ disk st' !! Demo.cache_dir
      = Some {[ "_metadata.json" := Text_json (metadata_json "1-1.3.42") ]}.
Proof.
  destruct (configResolved_fresh Demo.swcVersion Demo.config
              (initial_state ∅))
    as (st' & Hrun & Hcache & _ & _ & Hdisk).
  - reflexivity.
  - intros files H. cbn in H. by rewrite lookup_empty in H.
  - exists st'. split; [exact Hrun |]. split; [exact Hcache |].
    rewrite Hdisk. cbn [disk initial_state].
    rewrite lookup_insert_eq, lookup_empty. cbn. by rewrite insert_empty.
Defined.

Lemma configResolved_restore_exact_witness :
  cache (configResolved Demo.swcVersion Demo.config
           (Demo.over (Text_json (metadata_json "1-1.3.42")))).2
    !! "src|a.tsx.json"
  = Some (JObj [("input", JStr "let a;"); ("code", JStr "let a;");
                ("map", JObj [("mappings", JStr "AAAA")])])
  ∧ cache (configResolved Demo.swcVersion Demo.config
             (Demo.over (Text_json (metadata_json "1-1.3.42")))).2
      !! "_metadata.json" = None.
Proof.
  destruct (configResolved_restore_exact Demo.swcVersion Demo.config
              (Demo.over (Text_json (metadata_json "1-1.3.42")))
              (Demo.old_files (Text_json (metadata_json "1-1.3.42")))
              (Text_json (metadata_json "1-1.3.42"))
              (metadata_json "1-1.3.42"))
    as (Hgood & _).
  - reflexivity.
  - vm_compute. reflexivity.
  - vm_compute. reflexivity.
  - reflexivity.
  - discriminate.
  - reflexivity.
  - destruct Hgood as (_ & Hmap & _).
    + intros k t Hk. unfold Demo.old_files.
      destruct (decide (k = "_metadata.json")) as [-> | Hk1];
        [by vm_compute in Hk |].
      rewrite lookup_insert_ne by done.
      intros [<- <-]%lookup_singleton_Some. by eexists.
    + split; rewrite Hmap; vm_compute; reflexivity.
Defined.

Lemma configResolved_again_keeps_disk_witness :
  disk (configResolved Demo.swcVersion Demo.config
          (configResolved Demo.swcVersion Demo.config (initial_state ∅)).2).2
  = disk (configResolved Demo.swcVersion Demo.config (initial_state ∅)).2.
Proof.
  apply (configResolved_again_keeps_disk Demo.swcVersion Demo.config
           (initial_state ∅)).
  - reflexivity.
  - vm_compute. reflexivity.
Defined.

Lemma configResolved_other_version_witness :
  ∃ st', configResolved Demo.swcVersion Demo.config
           (Demo.over (Text_json (JArr [JStr "1-1.3.42"])))
         = (Return tt, st')
    ∧ cache st' = ∅
    ∧ disk st' !! Demo.cache_dir
      = Some {[ "_metadata.json" := Text_json (metadata_json "1-1.3.42") ]}.
Proof.
  destruct (configResolved_other_version Demo.swcVersion Demo.config
              (Demo.over (Text_json (JArr [JStr "1-1.3.42"])))
              (Demo.old_files (Text_json (JArr [JStr "1-1.3.42"])))
              (Text_json (JArr [JStr "1-1.3.42"]))
              (JArr [JStr "1-1.3.42"]))
    as (st' & Hrun & Hcache & Hdisk).
  - reflexivity.
  - vm_compute. reflexivity.
  - vm_compute. reflexivity.
  - reflexivity.
  - discriminate.
  - discriminate.
  - exists st'. split; [exact Hrun |]. split; [exact Hcache |].
    rewrite Hdisk. apply lookup_insert_eq.
Defined.

Lemma inject_line_drift_witness :
  lines_prepended Demo.broken_name = 9%nat
  ∧ Js.split_on line_feed
      (out_code (inject Demo.broken_name Demo.registered)) !! 10%nat
    = Some "$RefreshReg$(_c);"
  ∧ Js.split_on ";"
      (mappings (out_map (inject Demo.broken_name Demo.registered))) !! 9%nat
    = Some "AACA".
Proof.
  destruct (inject_line_drift Demo.broken_name Demo.registered)
    as (Hcount & Hline).
  - reflexivity.
  - split; [exact Hcount |].
    destruct (Hline 1%nat "$RefreshReg$(_c);") as [H1 H2]; [reflexivity |].
    split; [exact H1 | exact H2].
Defined.
